(** * minfs configuration: credential bootstrap, option builder, validation

    A shallow embedding of [fs/config.go] (package [minfs]).

    - Go strings are byte strings: [string], and [list ascii] inside the
      byte loops of the standard-library routines the file calls.
    - A Go [error] value is an element of [error]; a [nil] error is [None].
    - A [*url.URL] is an [option URL]; [nil] is [None].
    - An option (a Go closure over a [Config] pointer) mutates the
      configuration it is given: here it maps the configuration before to
      the one after, or to [None] where the Go code would panic.
    - [InitMinFSConfig] talks to the operating system: it is a computation
      in a state-and-error monad over [World]. *)

From Stdlib Require Import Ascii String List Bool Arith ZArith Lia.
From stdpp Require Import base option list strings gmap.

Local Open Scope string_scope.
Local Open Scope list_scope.
Local Open Scope nat_scope.

(* ===================================================================== *)
(** ** Errors *)

(** The error values the code can see.  [errors.New msg] builds
    [ErrorString msg]; the others stand for what the operating system and
    [encoding/json] report. *)
Inductive error : Type :=
| ErrorString (msg : string)   (* errors.New(msg) *)
| ErrNotExist                  (* ENOENT: os.IsNotExist holds *)
| ErrPermission                (* EACCES / EPERM *)
| ErrExist                     (* EEXIST / ENOTDIR *)
| ErrIO (msg : string)         (* any other failure of a system call *)
| ErrJSON (msg : string).      (* a SyntaxError or UnmarshalTypeError *)

Definition errors_New (msg : string) : error := ErrorString msg.

Definition os_IsNotExist (err : error) : bool :=
  match err with
  | ErrNotExist => true
  | _ => false
  end.

(* ===================================================================== *)
(** ** Data model *)

(** [url.Userinfo] and [url.URL], field by field. *)
Record Userinfo : Type := mkUserinfo {
  username : string;
  password : string;
  passwordSet : bool
}.

Record URL : Type := mkURL {
  Scheme : string;
  Opaque : string;
  User : option Userinfo;
  Host : string;
  Path : string;
  RawPath : string;
  ForceQuery : bool;
  RawQuery : string;
  Fragment : string;
  RawFragment : string
}.

(** [type Config struct]; [uint32] and [os.FileMode] values are naturals
    below [2^32] (the code only stores them). *)
Record Config : Type := mkConfig {
  bucket : string;
  basePath : string;
  cache : string;
  accountID : string;
  accessKey : string;
  secretKey : string;
  secretToken : string;
  target : option URL;
  mountpoint : string;
  insecure : bool;
  debug : bool;
  uid : N;
  gid : N;
  mode : N
}.

(** The zero value of [Config]. *)
Definition Config_zero : Config :=
  mkConfig "" "" "" "" "" "" "" None "" false false 0%N 0%N 0%N.

(** Assignments to one field of a configuration. *)
Definition set_bucket (v : string) (c : Config) : Config :=
  mkConfig v (basePath c) (cache c) (accountID c) (accessKey c) (secretKey c)
    (secretToken c) (target c) (mountpoint c) (insecure c) (debug c)
    (uid c) (gid c) (mode c).
Definition set_basePath (v : string) (c : Config) : Config :=
  mkConfig (bucket c) v (cache c) (accountID c) (accessKey c) (secretKey c)
    (secretToken c) (target c) (mountpoint c) (insecure c) (debug c)
    (uid c) (gid c) (mode c).
Definition set_cache (v : string) (c : Config) : Config :=
  mkConfig (bucket c) (basePath c) v (accountID c) (accessKey c) (secretKey c)
    (secretToken c) (target c) (mountpoint c) (insecure c) (debug c)
    (uid c) (gid c) (mode c).
Definition set_target (v : option URL) (c : Config) : Config :=
  mkConfig (bucket c) (basePath c) (cache c) (accountID c) (accessKey c)
    (secretKey c) (secretToken c) v (mountpoint c) (insecure c) (debug c)
    (uid c) (gid c) (mode c).
Definition set_mountpoint (v : string) (c : Config) : Config :=
  mkConfig (bucket c) (basePath c) (cache c) (accountID c) (accessKey c)
    (secretKey c) (secretToken c) (target c) v (insecure c) (debug c)
    (uid c) (gid c) (mode c).
Definition set_insecure (v : bool) (c : Config) : Config :=
  mkConfig (bucket c) (basePath c) (cache c) (accountID c) (accessKey c)
    (secretKey c) (secretToken c) (target c) (mountpoint c) v (debug c)
    (uid c) (gid c) (mode c).
Definition set_debug (v : bool) (c : Config) : Config :=
  mkConfig (bucket c) (basePath c) (cache c) (accountID c) (accessKey c)
    (secretKey c) (secretToken c) (target c) (mountpoint c) (insecure c) v
    (uid c) (gid c) (mode c).
Definition set_uid (v : N) (c : Config) : Config :=
  mkConfig (bucket c) (basePath c) (cache c) (accountID c) (accessKey c)
    (secretKey c) (secretToken c) (target c) (mountpoint c) (insecure c)
    (debug c) v (gid c) (mode c).
Definition set_gid (v : N) (c : Config) : Config :=
  mkConfig (bucket c) (basePath c) (cache c) (accountID c) (accessKey c)
    (secretKey c) (secretToken c) (target c) (mountpoint c) (insecure c)
    (debug c) (uid c) v (mode c).

(** [type AccessConfig struct], with its JSON field names as tags. *)
Record AccessConfig : Type := mkAccessConfig {
  Version : string;      (* json:"version" *)
  AccessKey : string;    (* json:"accessKey" *)
  SecretKey : string;    (* json:"secretKey" *)
  SecretToken : string   (* json:"secretToken" *)
}.

(** [cfg.validate()]: the first check that fails decides the error. *)
Definition validate (cfg : Config) : option error :=
  if String.eqb (mountpoint cfg) "" then Some (errors_New "Mountpoint not set")
  else match target cfg with
       | None => Some (errors_New "Target not set")
       | Some _ =>
           if String.eqb (bucket cfg) "" then Some (errors_New "Bucket not set")
           else None
       end.

(** The three errors [validate] can return. *)
Definition mountpoint_error : error := errors_New "Mountpoint not set".
Definition target_error : error := errors_New "Target not set".
Definition bucket_error : error := errors_New "Bucket not set".

(* ===================================================================== *)
(** ** The Go standard library: [strings] and [path]

    [strings.Split], [path.Join] and [path.Clean] are pure; they are
    written out here after the library's sources, since what [Target]
    stores is decided by them. *)

Definition bytes (s : string) : list ascii := list_ascii_of_string s.
Definition str (l : list ascii) : string := string_of_list_ascii l.

(** [s[i:]], for [i <= len(s)] (Go panics beyond that; the one use below
    is guarded by [len(s) > 1]). *)
Fixpoint slice_from (i : nat) (s : string) : string :=
  match i, s with
  | 0, _ => s
  | S i', String _ s' => slice_from i' s'
  | S _, EmptyString => EmptyString
  end.

(** [strings.Split(s, sep)] for a separator [sep] of one byte, the only
    form the code uses: the pieces of [s] between the occurrences of
    [sep], so one piece more than there are separators. *)
Fixpoint strings_Split (s : string) (sep : ascii) : list string :=
  match s with
  | EmptyString => [EmptyString]
  | String c s' =>
      if Ascii.eqb c sep then EmptyString :: strings_Split s' sep
      else match strings_Split s' sep with
           | piece :: pieces => String c piece :: pieces
           | [] => [String c EmptyString]
           end
  end.

(** *** [path.Clean]

    The library writes into a buffer [out] with write index [out.w]; here
    [out] is the list of the bytes written so far and [out.w] its length.
    The read index [r] into [path] is kept as the suffix [rest] of the
    path still to read, [n] being its end. *)

(** [r == n || path[r] == '/']: an element ends here. *)
Definition elem_ends (rest : list ascii) : bool :=
  match rest with
  | [] => true
  | c :: _ => Ascii.eqb c "/"
  end.

(** [for out.w > dotdot && out.index(out.w) != '/' { out.w-- }], as the
    final value of [out.w] when started from [w]. *)
Fixpoint back_to (out : list ascii) (dotdot w : nat) : nat :=
  match w with
  | 0 => 0
  | S w' =>
      if (dotdot <? w) && negb (Ascii.eqb (nth w out "000"%char) "/")
      then back_to out dotdot w'
      else w
  end.

(** [out.w--] followed by the loop above: drop the last element. *)
Definition backtrack (out : list ascii) (dotdot : nat) : list ascii :=
  take (back_to out dotdot (length out - 1)) out.

(** [for ; r < n && path[r] != '/'; r++ { out.append(path[r]) }]: the
    buffer and the unread suffix afterwards. *)
Fixpoint copy_elem (rest out : list ascii) : list ascii * list ascii :=
  match rest with
  | [] => (out, [])
  | c :: rest' =>
      if Ascii.eqb c "/" then (out, rest) else copy_elem rest' (out ++ [c])
  end.

(** The main loop [for r < n { switch ... }].  Every turn reads at least
    one byte, so [length rest] turns are enough; [fuel] counts them. *)
Fixpoint clean_loop (fuel : nat) (rooted : bool)
    (rest out : list ascii) (dotdot : nat) : list ascii :=
  match fuel with
  | 0 => out
  | S fuel' =>
      match rest with
      | [] => out
      | c :: rest1 =>
          if Ascii.eqb c "/" then
            (* empty path element *)
            clean_loop fuel' rooted rest1 out dotdot
          else if Ascii.eqb c "." && elem_ends rest1 then
            (* . element *)
            clean_loop fuel' rooted rest1 out dotdot
          else if Ascii.eqb c "." && Ascii.eqb (hd "000"%char rest1) "."
                  && elem_ends (tl rest1) then
            (* .. element: remove to last / *)
            let rest2 := tl rest1 in
            if dotdot <? length out then
              (* can backtrack *)
              clean_loop fuel' rooted rest2 (backtrack out dotdot) dotdot
            else if negb rooted then
              (* cannot backtrack, but not rooted, so append .. element *)
              let out1 := if 0 <? length out then out ++ ["/"%char] else out in
              let out2 := out1 ++ ["."%char; "."%char] in
              clean_loop fuel' rooted rest2 out2 (length out2)
            else
              clean_loop fuel' rooted rest2 out dotdot
          else
            (* real path element: add slash if needed, copy element *)
            let out1 :=
              if (rooted && negb (length out =? 1))
                 || (negb rooted && negb (length out =? 0))
              then out ++ ["/"%char] else out in
            let '(out2, rest') := copy_elem rest out1 in
            clean_loop fuel' rooted rest' out2 dotdot
      end
  end.

Definition path_Clean (path : string) : string :=
  if String.eqb path "" then "."
  else
    let p := bytes path in
    let rooted := Ascii.eqb (hd "000"%char p) "/" in
    let out :=
      if rooted then clean_loop (length p) rooted (tl p) ["/"%char] 1
      else clean_loop (length p) rooted p [] 0 in
    (* Turn empty string into "." *)
    if length out =? 0 then "." else str out.

(** *** [path.Join]: the non-empty-so-far buffer takes every further
    element after a slash; leading empty elements are skipped; the result
    is cleaned.  All elements empty: the empty string. *)
Definition join_step (buf e : string) : string :=
  if (0 <? String.length buf) || negb (String.eqb e "") then
    (if 0 <? String.length buf then buf +:+ "/" else buf) +:+ e
  else buf.

Definition path_Join (elem : list string) : string :=
  let size := foldr (fun e n => String.length e + n) 0 elem in
  if size =? 0 then ""
  else path_Clean (foldl join_step "" elem).

(** *** The cleaning join, told segment by segment

    What [path.Join] makes of a list of segments that hold no slash, in the
    words of the package documentation: empty and [.] segments are
    dropped, a [..] segment removes the segment kept before it (and stays
    when there is none to remove, the path not being rooted), the segments
    kept are joined by slashes, and if nothing is kept the result is [.],
    or the empty string when every segment was empty. *)

Definition no_slash (s : string) : bool :=
  forallb (fun c => negb (Ascii.eqb c "/")) (bytes s).

(** An ordinary name: not empty, not [.] or [..], and without a slash. *)
Definition plain (s : string) : bool :=
  negb (String.eqb s "") && negb (String.eqb s ".")
  && negb (String.eqb s "..") && no_slash s.

(** One segment against the segments kept so far, the latest first. *)
Definition clean_step (kept : list string) (seg : string) : list string :=
  if String.eqb seg "" || String.eqb seg "." then kept
  else if String.eqb seg ".." then
    match kept with
    | top :: kept' => if String.eqb top ".." then seg :: kept else kept'
    | [] => [seg]
    end
  else seg :: kept.

Definition clean_segments (segs : list string) : list string :=
  rev (foldl clean_step [] segs).

Definition clean_join (segs : list string) : string :=
  if forallb (fun s => String.eqb s "") segs then ""
  else match clean_segments segs with
       | [] => "."
       | kept => String.concat "/" kept
       end.

(** Notions used in the proofs about [path.Clean]: the bytes of segments
    each preceded by a slash, the buffer for [k] leading [..] followed by
    the kept names [reals] (latest first), and the value of [dotdot]. *)
Definition slashed (segs : list string) : list ascii :=
  flat_map (fun s => "/"%char :: bytes s) segs.

Definition out_of (k : nat) (reals : list string) : list ascii :=
  bytes (String.concat "/" (repeat ".." k ++ rev reals)).

Definition ddlen (k : nat) : nat := length (out_of k []).

(* ===================================================================== *)
(** ** The Go standard library: [encoding/json], encoding side

    [json.Marshal] of an [AccessConfig] writes the four string fields under
    their tags, in declaration order, each value through the encoder's
    string routine with HTML escaping on.  Decoding ([json.Unmarshal]) and
    [url.Parse] are not written out: the code is verified for whatever
    they return (section [MinFS] below). *)

Definition dquote : ascii := "034"%char.
Definition backslash : ascii := "092"%char.

Definition hex_digit (d : N) : ascii :=
  nth (N.to_nat d) (bytes "0123456789abcdef") "0"%char.

(** [htmlSafeSet[b]]: the bytes below [utf8.RuneSelf] that are written as
    they are: space to DEL, except the quote, the backslash and the three
    HTML characters. *)
Definition htmlSafeSet (b : ascii) : bool :=
  let n := N_of_ascii b in
  (32 <=? n)%N && (n <? 128)%N
  && negb (Ascii.eqb b dquote) && negb (Ascii.eqb b backslash)
  && negb (Ascii.eqb b "&") && negb (Ascii.eqb b "<")
  && negb (Ascii.eqb b ">").

(** The escape written for a byte below [utf8.RuneSelf] that is not safe.
    (Releases from Go 1.22 also shorten backspace and form feed to two
    characters; before, they fall under the default case, as here.) *)
Definition escape_byte (b : ascii) : list ascii :=
  if Ascii.eqb b backslash || Ascii.eqb b dquote then [backslash; b]
  else if Ascii.eqb b "010" then [backslash; "n"%char]
  else if Ascii.eqb b "013" then [backslash; "r"%char]
  else if Ascii.eqb b "009" then [backslash; "t"%char]
  else
    let n := N_of_ascii b in
    [backslash; "u"%char; "0"%char; "0"%char;
     hex_digit (N.shiftr n 4); hex_digit (N.land n 15)].

(** [utf8.first[b]]: information about the first byte of an encoding. *)
Definition utf8_first (b : N) : N :=
  (if b <? 0x80 then 0xF0         (* as: ASCII, size 1 *)
   else if b <? 0xC2 then 0xF1    (* xx: invalid, size 1 *)
   else if b <? 0xE0 then 0x02    (* s1: accept 0, size 2 *)
   else if b =? 0xE0 then 0x13    (* s2: accept 1, size 3 *)
   else if b <? 0xED then 0x03    (* s3: accept 0, size 3 *)
   else if b =? 0xED then 0x23    (* s4: accept 2, size 3 *)
   else if b <? 0xF0 then 0x03    (* s3 *)
   else if b =? 0xF0 then 0x34    (* s5: accept 3, size 4 *)
   else if b <? 0xF4 then 0x04    (* s6: accept 0, size 4 *)
   else if b =? 0xF4 then 0x44    (* s7: accept 4, size 4 *)
   else 0xF1)%N.

(** [utf8.acceptRanges[i]]: the range of a valid second byte. *)
Definition utf8_accept (i : N) : N * N :=
  (if i =? 1 then (0xA0, 0xBF)
   else if i =? 2 then (0x80, 0x9F)
   else if i =? 3 then (0x90, 0xBF)
   else if i =? 4 then (0x80, 0x8F)
   else (0x80, 0xBF))%N.

Definition RuneError : N := 0xFFFD%N.

(** [utf8.DecodeRuneInString(s)]: the rune at the front of [s] and its
    width in bytes; [(RuneError, 1)] for an invalid encoding. *)
Definition utf8_DecodeRune (s : list ascii) : N * nat :=
  match s with
  | [] => (RuneError, 0)
  | c0 :: s1 =>
      let s0 := N_of_ascii c0 in
      let x := utf8_first s0 in
      if (0xF0 <=? x)%N then
        (if N.odd x then RuneError else s0, 1)
      else
        let sz := N.to_nat (N.land x 7) in
        let '(lo, hi) := utf8_accept (N.shiftr x 4) in
        let cont (c : ascii) := N.land (N_of_ascii c) 0x3F in
        let tail_ok (c : ascii) :=
          (0x80 <=? N_of_ascii c)%N && (N_of_ascii c <=? 0xBF)%N in
        if length s <? sz then (RuneError, 1)
        else
          match s1 with
          | [] => (RuneError, 1)
          | c1 :: s2 =>
              if (N_of_ascii c1 <? lo)%N || (hi <? N_of_ascii c1)%N
              then (RuneError, 1)
              else if sz <=? 2 then
                (N.lor (N.shiftl (N.land s0 0x1F) 6) (cont c1), 2)
              else
                match s2 with
                | [] => (RuneError, 1)
                | c2 :: s3 =>
                    if negb (tail_ok c2) then (RuneError, 1)
                    else if sz <=? 3 then
                      (N.lor (N.shiftl (N.land s0 0x0F) 12)
                         (N.lor (N.shiftl (cont c1) 6) (cont c2)), 3)
                    else
                      match s3 with
                      | [] => (RuneError, 1)
                      | c3 :: _ =>
                          if negb (tail_ok c3) then (RuneError, 1)
                          else
                            (N.lor (N.shiftl (N.land s0 0x07) 18)
                               (N.lor (N.shiftl (cont c1) 12)
                                  (N.lor (N.shiftl (cont c2) 6) (cont c3))),
                             4)
                      end
                end
          end
  end.

(** The body of a JSON string for the bytes [s] (the encoder's string
    routine without the two quotes).  A turn reads at least one byte;
    [fuel] counts the turns. *)
Fixpoint encode_bytes (fuel : nat) (s : list ascii) : list ascii :=
  match fuel with
  | 0 => []
  | S fuel' =>
      match s with
      | [] => []
      | b :: s1 =>
          if (N_of_ascii b <? 128)%N then
            (if htmlSafeSet b then [b] else escape_byte b)
              ++ encode_bytes fuel' s1
          else
            let '(c, size) := utf8_DecodeRune s in
            if (c =? RuneError)%N && (size =? 1) then
              bytes "\ufffd" ++ encode_bytes fuel' s1
            else if (c =? 0x2028)%N || (c =? 0x2029)%N then
              bytes "\u202" ++ [hex_digit (N.land c 15)]
                ++ encode_bytes fuel' (drop size s)
            else
              take size s ++ encode_bytes fuel' (drop size s)
      end
  end.

Definition json_string (s : string) : string :=
  str ([dquote] ++ encode_bytes (String.length s) (bytes s) ++ [dquote]).

(** [json.Marshal(ac)] for [ac *AccessConfig]; it cannot fail on a struct
    of strings, so the error case of the result stays unused. *)
Definition json_Marshal (ac : AccessConfig) : error + string :=
  inr ("{" +:+ json_string "version" +:+ ":" +:+ json_string (Version ac)
       +:+ "," +:+ json_string "accessKey" +:+ ":" +:+ json_string (AccessKey ac)
       +:+ "," +:+ json_string "secretKey" +:+ ":" +:+ json_string (SecretKey ac)
       +:+ "," +:+ json_string "secretToken" +:+ ":"
       +:+ json_string (SecretToken ac) +:+ "}").

(** The text [s] between two double quotes. *)
Definition quoted (s : string) : string :=
  String dquote (s +:+ String dquote "").

(** The credential document of a first run for the keys [a] and [b] and no
    token: the object with the members version (the string 1), accessKey
    ([a]), secretKey ([b]) and secretToken (the empty string), in this
    order, without white space. *)
Definition first_run_document (a b : string) : string :=
  "{" +:+ quoted "version" +:+ ":" +:+ quoted "1"
  +:+ "," +:+ quoted "accessKey" +:+ ":" +:+ quoted a
  +:+ "," +:+ quoted "secretKey" +:+ ":" +:+ quoted b
  +:+ "," +:+ quoted "secretToken" +:+ ":" +:+ quoted "" +:+ "}".

(* ===================================================================== *)
(** ** The world [InitMinFSConfig] runs in

    The file system (regular files with their bytes, directories), the
    process environment, the clock, and the package variable [MountTime].
    A system call can fail for reasons outside this picture (permissions,
    a full disk): [mkdir_fault], [stat_fault], [read_fault] and
    [write_plan] say which of the next calls do, and how.  [trace] lists
    what the program did, oldest first: its calls, and its assignments to
    [MountTime]. *)

Definition Time : Type := Z.

Inductive Call : Type :=
| CallMkdirAll (path : string) (perm : N)
| CallNow
| CallStat (name : string)
| CallGetenv (key : string)
| CallWriteFile (name data : string) (perm : N)
| CallReadFile (name : string)
| CallPrintln (msg : string)
| AssignMountTime (t : Time).

Inductive write_outcome : Type :=
| WriteDone
| OpenFails (err : error)              (* nothing is created or truncated *)
| WriteFails (err : error) (n : nat).  (* truncated, [n] bytes written *)

Record World : Type := mkWorld {
  files : gmap string string;
  dirs : gset string;
  env : gmap string string;
  clock : Time;
  MountTime : Time;
  mkdir_fault : option error;
  stat_fault : option error;
  read_fault : option error;
  write_plan : write_outcome;
  trace : list Call
}.

Definition set_files (v : gmap string string) (w : World) : World :=
  mkWorld v (dirs w) (env w) (clock w) (MountTime w) (mkdir_fault w)
    (stat_fault w) (read_fault w) (write_plan w) (trace w).
Definition set_dirs (v : gset string) (w : World) : World :=
  mkWorld (files w) v (env w) (clock w) (MountTime w) (mkdir_fault w)
    (stat_fault w) (read_fault w) (write_plan w) (trace w).
Definition set_MountTime (v : Time) (w : World) : World :=
  mkWorld (files w) (dirs w) (env w) (clock w) v (mkdir_fault w)
    (stat_fault w) (read_fault w) (write_plan w) (trace w).
Definition set_trace (v : list Call) (w : World) : World :=
  mkWorld (files w) (dirs w) (env w) (clock w) (MountTime w) (mkdir_fault w)
    (stat_fault w) (read_fault w) (write_plan w) v.

(** Computations that read and change the world and may stop with an
    error: Go's [(T, error)] results threaded through [if err != nil]. *)
Definition M (A : Type) : Type := World -> (error + A) * World.

Definition ret {A : Type} (a : A) : M A := fun w => (inr a, w).
Definition throw {A : Type} (err : error) : M A := fun w => (inl err, w).
Definition bind {A B : Type} (m : M A) (k : A -> M B) : M B :=
  fun w =>
    match m w with
    | (inr a, w') => k a w'
    | (inl err, w') => (inl err, w')
    end.
(** [v, err := f()] without the early return: the error is handed on. *)
Definition catch {A : Type} (m : M A) : M (error + A) :=
  fun w => let '(r, w') := m w in (inr r, w').
Definition lift {A : Type} (r : error + A) : M A := fun w => (r, w).

Notation "x <- c1 ;; c2" := (bind c1 (fun x => c2))
  (at level 20, c1 at level 99, c2 at level 200, only parsing).

(** The world with one more entry at the end of its trace. *)
Definition logged (c : Call) (w : World) : World :=
  set_trace (trace w ++ [c]) w.

Definition called (c : Call) : M unit := fun w => (inr tt, logged c w).

(** [os.MkdirAll(path, perm)]: an existing directory is fine, a regular
    file in the way is not. *)
Definition os_MkdirAll (path : string) (perm : N) : M unit :=
  _ <- called (CallMkdirAll path perm) ;;
  fun w =>
    match mkdir_fault w with
    | Some err => (inl err, w)
    | None =>
        match files w !! path with
        | Some _ => (inl ErrExist, w)
        | None => (inr tt, set_dirs ({[path]} ∪ dirs w) w)
        end
    end.

(** [time.Now()]. *)
Definition time_Now : M Time :=
  _ <- called CallNow ;; fun w => (inr (clock w), w).

(** [MountTime = t]. *)
Definition assign_MountTime (t : Time) : M unit :=
  _ <- called (AssignMountTime t) ;;
  fun w => (inr tt, set_MountTime t w).

(** [os.Stat(name)]; the [FileInfo] is dropped by the caller. *)
Definition os_Stat (name : string) : M unit :=
  _ <- called (CallStat name) ;;
  fun w =>
    match stat_fault w with
    | Some err => (inl err, w)
    | None =>
        if bool_decide (is_Some (files w !! name) \/ name ∈ dirs w)
        then (inr tt, w) else (inl ErrNotExist, w)
    end.

(** [os.Getenv(key)]: the empty string when the variable is unset. *)
Definition getenv (w : World) (key : string) : string :=
  default "" (env w !! key).

Definition os_Getenv (key : string) : M string :=
  _ <- called (CallGetenv key) ;; fun w => (inr (getenv w key), w).

(** [ioutil.WriteFile(name, data, perm)]: create or truncate, then write. *)
Definition ioutil_WriteFile (name data : string) (perm : N) : M unit :=
  _ <- called (CallWriteFile name data perm) ;;
  fun w =>
    match write_plan w with
    | WriteDone =>
        if bool_decide (name ∈ dirs w) then (inl (ErrIO "is a directory"), w)
        else (inr tt, set_files (<[name := data]> (files w)) w)
    | OpenFails err => (inl err, w)
    | WriteFails err n =>
        (inl err, set_files (<[name := str (take n (bytes data))]> (files w)) w)
    end.

(** [ioutil.ReadFile(name)]. *)
Definition ioutil_ReadFile (name : string) : M string :=
  _ <- called (CallReadFile name) ;;
  fun w =>
    match read_fault w with
    | Some err => (inl err, w)
    | None =>
        match files w !! name with
        | Some data => (inr data, w)
        | None =>
            (inl (if bool_decide (name ∈ dirs w)
                  then ErrIO "is a directory" else ErrNotExist), w)
        end
    end.

(** [log.Println(msg)]. *)
Definition log_Println (msg : string) : M unit := called (CallPrintln msg).

(** The permission bits [0777] and [0666]. *)
Definition perm_0777 : N := 511.
Definition perm_0666 : N := 438.

(** [&AccessConfig{}]. *)
Definition AccessConfig_zero : AccessConfig := mkAccessConfig "" "" "" "".

Definition set_AccessKey (v : string) (ac : AccessConfig) : AccessConfig :=
  mkAccessConfig (Version ac) v (SecretKey ac) (SecretToken ac).
Definition set_SecretKey (v : string) (ac : AccessConfig) : AccessConfig :=
  mkAccessConfig (Version ac) (AccessKey ac) v (SecretToken ac).
Definition set_SecretToken (v : string) (ac : AccessConfig) : AccessConfig :=
  mkAccessConfig (Version ac) (AccessKey ac) (SecretKey ac) v.

(* ===================================================================== *)
(** ** Sample answers of [url.Parse] and [json.Unmarshal]

    The values the two library functions return on the inputs used in the
    worked examples at the end of the file.  Inputs outside the samples
    get an error; no example relies on that answer. *)

Definition http_URL (scheme host path : string) : URL :=
  mkURL scheme "" None host path "" false "" "" "".

Definition url_Parse_sample (rawURL : string) : error + URL :=
  if String.eqb rawURL "https://h/b/p1/p2"
  then inr (http_URL "https" "h" "/b/p1/p2")
  else if String.eqb rawURL "https://h/bucket/a/b"
  then inr (http_URL "https" "h" "/bucket/a/b")
  else if String.eqb rawURL "https://h/b//p"
  then inr (http_URL "https" "h" "/b//p")
  else if String.eqb rawURL "https://h/b/./p"
  then inr (http_URL "https" "h" "/b/./p")
  else if String.eqb rawURL "https://h/b/x/../p"
  then inr (http_URL "https" "h" "/b/x/../p")
  else if String.eqb rawURL "https://h/b"
  then inr (http_URL "https" "h" "/b")
  else if String.eqb rawURL "https://h/"
  then inr (http_URL "https" "h" "/")
  else if String.eqb rawURL "://h/b"
  then inl (ErrorString "parse ://h/b: missing protocol scheme")
  else inl (ErrorString "outside the sample").

(** The document of the second-run example, [{"accessKey":"A","secretKey":"B"}]. *)
Definition sample_document : string :=
  "{" +:+ json_string "accessKey" +:+ ":" +:+ json_string "A" +:+ ","
  +:+ json_string "secretKey" +:+ ":" +:+ json_string "B" +:+ "}".

Definition json_Unmarshal_sample (data : string) (v : AccessConfig)
    : error + AccessConfig :=
  if String.eqb data sample_document
  then inr (set_SecretKey "B" (set_AccessKey "A" v))
  else if String.eqb data "{"
  then inl (ErrJSON "unexpected end of JSON input")
  else inl (ErrJSON "outside the sample").

(* ===================================================================== *)
(** ** The program *)

Section MinFS.

(** Declared elsewhere in the package: the directory and the file of the
    credentials. *)
Variable globalDBDir : string.
Variable globalConfigFile : string.

(** [url.Parse] and [json.Unmarshal(data, v)] (the value decoded into
    [v]), as the standard library provides them. *)
Variable url_Parse : string -> error + URL.
Variable json_Unmarshal : string -> AccessConfig -> error + AccessConfig.

(** [InitMinFSConfig]: initialize the MinFS configuration file. *)
Definition InitMinFSConfig : M AccessConfig :=
  (* Create db directory. *)
  _ <- os_MkdirAll globalDBDir perm_0777 ;;
  t <- time_Now ;;
  _ <- assign_MountTime t ;;
  (* Config doesn't exist create it based on environment values. *)
  st <- catch (os_Stat globalConfigFile) ;;
  match st with
  | inl err =>
      if os_IsNotExist err then
        _ <- log_Println "Initializing config.json for the first time, please update your access credentials." ;;
        accessKey <- os_Getenv "MINFS_ACCESS_KEY" ;;
        secretKey <- os_Getenv "MINFS_SECRET_KEY" ;;
        secretToken <- os_Getenv "MINFS_SECRET_TOKEN" ;;
        let ac := mkAccessConfig "1" accessKey secretKey secretToken in
        acBytes <- lift (json_Marshal ac) ;;
        _ <- ioutil_WriteFile globalConfigFile acBytes perm_0666 ;;
        ret ac
      else
        (* Exists but not accessible, fail. *)
        throw err
  | inr _ =>
      (* Config exists, proceed to read. *)
      acBytes <- ioutil_ReadFile globalConfigFile ;;
      ac <- lift (json_Unmarshal acBytes AccessConfig_zero) ;;
      (* Override if access keys are set through env. *)
      accessKey <- os_Getenv "MINFS_ACCESS_KEY" ;;
      secretKey <- os_Getenv "MINFS_SECRET_KEY" ;;
      secretToken <- os_Getenv "MINFS_SECRET_TOKEN" ;;
      let ac := if negb (String.eqb accessKey "")
                then set_AccessKey accessKey ac else ac in
      let ac := if negb (String.eqb secretKey "")
                then set_SecretKey secretKey ac else ac in
      let ac := if negb (String.eqb secretToken "")
                then set_SecretToken secretToken ac else ac in
      ret ac
  end.

(** [Mountpoint(mountpoint)]. *)
Definition Mountpoint (mountpoint : string) (cfg : Config) : option Config :=
  Some (set_mountpoint mountpoint cfg).

(** [Target(target)].  [parts[0]] is an indexing that panics on an empty
    slice ([len(parts) >= 0] does not guard it): [None] stands for that. *)
Definition Target (target : string) (cfg : Config) : option Config :=
  match url_Parse target with
  | inr u =>
      let cfg := set_target (Some u) cfg in
      if 1 <? String.length (Path u) then
        let parts := strings_Split (slice_from 1 (Path u)) "/" in
        cfg ← (if 0 <=? length parts
               then part ← parts !! 0; Some (set_bucket part cfg)
               else Some cfg);
        if 1 <=? length parts
        then Some (set_basePath (path_Join (drop 1 parts)) cfg)
        else Some cfg
      else Some cfg
  | inl _ => Some cfg
  end.

(** [CacheDir(path)], [SetGID(gid)], [SetUID(uid)], [Insecure()],
    [Debug()]. *)
Definition CacheDir (path : string) (cfg : Config) : option Config :=
  Some (set_cache path cfg).
Definition SetGID (gid : N) (cfg : Config) : option Config :=
  Some (set_gid gid cfg).
Definition SetUID (uid : N) (cfg : Config) : option Config :=
  Some (set_uid uid cfg).
Definition Insecure (cfg : Config) : option Config :=
  Some (set_insecure true cfg).
Definition Debug (cfg : Config) : option Config :=
  Some (set_debug true cfg).

End MinFS.

(** A computation that leaves [MountTime] alone and only adds to the
    trace. *)
Definition steady {A : Type} (m : M A) : Prop :=
  forall w, MountTime (m w).2 = MountTime w
            /\ exists l, trace (m w).2 = trace w ++ l.

(** The world once [InitMinFSConfig] has made the directory [dir] and
    stored the time. *)
Definition mounted (dir : string) (w : World) : World :=
  set_MountTime (clock w)
    (logged (AssignMountTime (clock w))
       (logged CallNow
          (set_dirs ({[dir]} ∪ dirs w)
             (logged (CallMkdirAll dir perm_0777) w)))).

(** Sample paths and worlds for the bootstrap. *)
Definition sample_dir : string := "/var/minfs/db".
Definition sample_file : string := "/var/minfs/db/config.json".

(** Nothing on disk; the two keys in the environment, no token. *)
Definition world_first_run : World :=
  mkWorld ∅ ∅
    (<["MINFS_ACCESS_KEY" := "A"]> (<["MINFS_SECRET_KEY" := "B"]> ∅))
    1700000000%Z 0%Z None None None WriteDone [].

(** The credential file holds [sample_document]; only the secret key is
    in the environment. *)
Definition world_later_run : World :=
  mkWorld (<[sample_file := sample_document]> ∅) {[sample_dir]}
    (<["MINFS_SECRET_KEY" := "C"]> ∅)
    1700000000%Z 0%Z None None None WriteDone [].

(** As before, but the credential file cannot be looked at. *)
Definition world_denied : World :=
  mkWorld (<[sample_file := sample_document]> ∅) {[sample_dir]}
    (<["MINFS_SECRET_KEY" := "C"]> ∅)
    1700000000%Z 0%Z None (Some ErrPermission) None WriteDone [].

(** The credential file is there and cannot be read. *)
Definition world_unreadable : World :=
  mkWorld (<[sample_file := sample_document]> ∅) {[sample_dir]} ∅
    1700000000%Z 0%Z None None (Some (ErrIO "input/output error")) WriteDone [].

(** The credential file holds a lone brace. *)
Definition world_bad_document : World :=
  mkWorld (<[sample_file := "{"]> ∅) {[sample_dir]} ∅
    1700000000%Z 0%Z None None None WriteDone [].

(** A first run on a full disk: the file is created and stays empty. *)
Definition world_disk_full : World :=
  mkWorld ∅ ∅ ∅ 1700000000%Z 0%Z None None None
    (WriteFails (ErrIO "no space left on device") 0) [].


(** A first run whose credential file cannot be opened for writing. *)
Definition world_read_only : World :=
  mkWorld ∅ ∅ (<["MINFS_ACCESS_KEY" := "A"]> ∅)
    1700000000%Z 0%Z None None None (OpenFails ErrPermission) [].

(** Nothing on disk; a secret key with a quote and a line feed in it. *)
Definition world_odd_key : World :=
  mkWorld ∅ ∅
    (<["MINFS_SECRET_KEY" := String dquote (String "010" "<")]> ∅)
    1700000000%Z 0%Z None None None WriteDone [].

(* ===================================================================== *)
(** ** Notions for the further facts *)

(** The text [json.Marshal] returns for [ac]. *)
Definition credential_document (ac : AccessConfig) : string :=
  match json_Marshal ac with
  | inr text => text
  | inl _ => ""
  end.

(** The record a first run builds in the world [w]. *)
Definition first_run_record (w : World) : AccessConfig :=
  mkAccessConfig "1" (getenv w "MINFS_ACCESS_KEY")
    (getenv w "MINFS_SECRET_KEY") (getenv w "MINFS_SECRET_TOKEN").

(** The world of a first run when [ioutil.WriteFile] is about to be
    called for the directory [dir] and the file [file]. *)
Definition before_write (dir file : string) (w : World) : World :=
  logged (CallGetenv "MINFS_SECRET_TOKEN")
    (logged (CallGetenv "MINFS_SECRET_KEY")
       (logged (CallGetenv "MINFS_ACCESS_KEY")
          (logged (CallPrintln "Initializing config.json for the first time, please update your access credentials.")
             (logged (CallStat file) (mounted dir w))))).

(** The overrides of a later run: each key of [disk] gives way to its
    environment variable when that is not empty. *)
Definition override_keys (w : World) (disk : AccessConfig) : AccessConfig :=
  let ac := if negb (String.eqb (getenv w "MINFS_ACCESS_KEY") "")
            then set_AccessKey (getenv w "MINFS_ACCESS_KEY") disk else disk in
  let ac := if negb (String.eqb (getenv w "MINFS_SECRET_KEY") "")
            then set_SecretKey (getenv w "MINFS_SECRET_KEY") ac else ac in
  if negb (String.eqb (getenv w "MINFS_SECRET_TOKEN") "")
  then set_SecretToken (getenv w "MINFS_SECRET_TOKEN") ac else ac.

(** [url.Parse] on one more URL, and a decoder that reads back the
    documents a first run writes in [world_first_run] and
    [world_odd_key]. *)
Definition url_Parse_sample_more (rawURL : string) : error + URL :=
  if String.eqb rawURL "https://h/b/p"
  then inr (http_URL "https" "h" "/b/p")
  else if String.eqb rawURL "https://h//p"
  then inr (http_URL "https" "h" "//p")
  else url_Parse_sample rawURL.

Definition json_Unmarshal_written (data : string) (v : AccessConfig)
    : error + AccessConfig :=
  if String.eqb data (credential_document (first_run_record world_first_run))
  then inr (first_run_record world_first_run)
  else if String.eqb data (credential_document (first_run_record world_odd_key))
  then inr (first_run_record world_odd_key)
  else json_Unmarshal_sample data v.

(* ===================================================================== *)
(** ** Tactics for running the bootstrap *)

(** Simplification of field reads through field updates of the world. *)
Ltac wsimpl :=
  cbn [files dirs env clock MountTime mkdir_fault stat_fault read_fault
       write_plan trace set_files set_dirs set_MountTime set_trace
       fst snd].

(** One step of a computation: unfold the outermost [bind], rewrite the
    call with its equation [lem], discharge what the equation asks. *)
Ltac step lem :=
  unfold bind at 1; rewrite lem by (wsimpl; eauto); cbv beta iota.

(* ===================================================================== *)
(** ** Validation *)

Section ValidationFacts.

(** C1: [validate] returns no error exactly when the mountpoint is set,
    the target is not nil and the bucket is set; otherwise the first check
    that fails, in the order mountpoint, target, bucket, gives the error. *)
Theorem validate_ok_iff_and_order (cfg : Config) :
  (validate cfg = None <->
     mountpoint cfg <> "" /\ target cfg <> None /\ bucket cfg <> "")
  /\ (mountpoint cfg = "" -> validate cfg = Some mountpoint_error)
  /\ (mountpoint cfg <> "" -> target cfg = None ->
        validate cfg = Some target_error)
  /\ (mountpoint cfg <> "" -> target cfg <> None -> bucket cfg = "" ->
        validate cfg = Some bucket_error).
Proof.
  unfold validate, mountpoint_error, target_error, bucket_error.
  destruct (String.eqb_spec (mountpoint cfg) "") as [Hm | Hm];
    destruct (target cfg) as [u |] eqn:Ht;
    destruct (String.eqb_spec (bucket cfg) "") as [Hb | Hb];
    repeat split; intros; try tauto; try congruence; try discriminate.
  all: try (destruct H as (? & ? & ?); congruence).
Qed.

(** C5, as the code has it: the bucket error is returned exactly when the
    two earlier checks pass and the bucket is empty. *)
Theorem validate_bucket_error_iff (cfg : Config) :
  validate cfg = Some bucket_error <->
  mountpoint cfg <> "" /\ target cfg <> None /\ bucket cfg = "".
Proof.
  unfold validate, bucket_error, errors_New.
  destruct (String.eqb_spec (mountpoint cfg) "") as [Hm | Hm];
    destruct (target cfg) as [u |] eqn:Ht;
    destruct (String.eqb_spec (bucket cfg) "") as [Hb | Hb];
    split; intros H; try discriminate; try tauto; try congruence.
  all: try (destruct H as (? & ? & ?); congruence).
  all: try (repeat split; congruence).
Qed.

(** C5, as stated, fails on the zero configuration: its bucket is empty,
    and [validate] reports the mountpoint, not the bucket. *)
Lemma validate_empty_bucket_other_error :
  bucket Config_zero = ""
  /\ validate Config_zero = Some mountpoint_error
  /\ ~ (validate Config_zero = Some bucket_error <-> bucket Config_zero = "").
Proof.
  split; [reflexivity | split; [reflexivity |]].
  intros [_ H]. specialize (H eq_refl). discriminate H.
Qed.

End ValidationFacts.

(* ===================================================================== *)
(** ** Strings and bytes *)

Section BytesFacts.

Lemma str_bytes (s : string) : str (bytes s) = s.
Proof. apply string_of_list_ascii_of_string. Qed.

Lemma bytes_str (l : list ascii) : bytes (str l) = l.
Proof. apply list_ascii_of_string_of_list_ascii. Qed.

Lemma bytes_app (a b : string) : bytes (a +:+ b) = bytes a ++ bytes b.
Proof.
  induction a as [| c a IH]; [reflexivity |].
  change (bytes (String c a +:+ b)) with (c :: bytes (a +:+ b)).
  rewrite IH. reflexivity.
Qed.

Lemma length_bytes (s : string) : length (bytes s) = String.length s.
Proof. induction s as [| c s IH]; simpl; [reflexivity | now rewrite <- IH]. Qed.

Lemma bytes_nil (s : string) : bytes s = [] -> s = "".
Proof. destruct s; [reflexivity | discriminate]. Qed.

Lemma bytes_inj (a b : string) : bytes a = bytes b -> a = b.
Proof. intros H. rewrite <- (str_bytes a), <- (str_bytes b), H. reflexivity. Qed.

Lemma no_slash_cons (c : ascii) (s : string) :
  no_slash (String c s) = negb (Ascii.eqb c "/") && no_slash s.
Proof. reflexivity. Qed.

Lemma no_slash_spec (s : string) :
  no_slash s = true -> Forall (fun c => Ascii.eqb c "/" = false) (bytes s).
Proof.
  induction s as [| c s IH]; intros H; [constructor |].
  rewrite no_slash_cons in H. apply andb_true_iff in H as [Hc Hs].
  constructor; [now apply negb_true_iff in Hc | now apply IH].
Qed.

Lemma plain_inv (s : string) :
  plain s = true -> s <> "" /\ s <> "." /\ s <> ".." /\ no_slash s = true.
Proof.
  unfold plain. intros H.
  repeat (apply andb_true_iff in H; destruct H as [H ?]).
  repeat split; try assumption;
    apply String.eqb_neq; now apply negb_true_iff.
Qed.

Lemma plain_intro (s : string) :
  s <> "" -> s <> "." -> s <> ".." -> no_slash s = true -> plain s = true.
Proof.
  intros H1 H2 H3 H4. unfold plain.
  apply String.eqb_neq in H1, H2, H3. now rewrite H1, H2, H3, H4.
Qed.

End BytesFacts.

(* ===================================================================== *)
(** ** [strings.Split] *)

Section SplitFacts.

(** [Split] never returns an empty slice. *)
Lemma strings_Split_nonempty (s : string) (sep : ascii) :
  strings_Split s sep <> [].
Proof.
  destruct s as [| c s]; simpl; [discriminate |].
  destruct (Ascii.eqb c sep); [discriminate |].
  destruct (strings_Split s sep); discriminate.
Qed.

(** A string without the separator is returned whole. *)
Lemma strings_Split_no_slash (s : string) :
  no_slash s = true -> strings_Split s "/" = [s].
Proof.
  induction s as [| c s IH]; [reflexivity |].
  rewrite no_slash_cons. intros H. apply andb_true_iff in H as [Hc Hs].
  apply negb_true_iff in Hc. simpl. rewrite Hc, (IH Hs). reflexivity.
Qed.

(** The pieces of [b/s1/.../sn] are [b], [s1], ..., [sn]. *)
Lemma strings_Split_slashed (b : string) (segs : list string) :
  no_slash b = true -> forallb no_slash segs = true ->
  strings_Split (b +:+ str (slashed segs)) "/" = b :: segs.
Proof.
  revert b. induction segs as [| seg segs IH]; intros b Hb Hsegs.
  - simpl. replace (b +:+ "") with b.
    + now apply strings_Split_no_slash.
    + apply bytes_inj. rewrite bytes_app. simpl. now rewrite app_nil_r.
  - simpl in Hsegs. apply andb_true_iff in Hsegs as [Hseg Hsegs].
    specialize (IH seg Hseg Hsegs).
    assert (Hrest : str (slashed (seg :: segs))
                    = String "/" (seg +:+ str (slashed segs))).
    { apply bytes_inj. rewrite bytes_str. simpl.
      change (bytes (String "/" (seg +:+ str (slashed segs))))
        with ("/"%char :: bytes (seg +:+ str (slashed segs))).
      now rewrite bytes_app, bytes_str. }
    rewrite Hrest. clear Hrest Hseg Hsegs.
    induction b as [| c b IHb].
    + change ("" +:+ String "/" (seg +:+ str (slashed segs)))
        with (String "/" (seg +:+ str (slashed segs))).
      simpl. now rewrite IH.
    + rewrite no_slash_cons in Hb. apply andb_true_iff in Hb as [Hc Hb].
      apply negb_true_iff in Hc.
      change (String c b +:+ String "/" (seg +:+ str (slashed segs)))
        with (String c (b +:+ String "/" (seg +:+ str (slashed segs)))).
      simpl. rewrite Hc, (IHb Hb). reflexivity.
Qed.

End SplitFacts.

(* ===================================================================== *)
(** ** [path.Clean] and [path.Join] on segments without a slash *)

Section CleanFacts.

Lemma slashed_app (a b : list string) : slashed (a ++ b) = slashed a ++ slashed b.
Proof. unfold slashed. apply flat_map_app. Qed.

Lemma elem_ends_slashed (segs : list string) : elem_ends (slashed segs) = true.
Proof. destruct segs; reflexivity. Qed.

Lemma bytes_concat_cons (x : string) (l : list string) :
  bytes (String.concat "/" (x :: l)) = bytes x ++ slashed l.
Proof.
  revert x. induction l as [| y l IH]; intros x.
  - simpl. now rewrite app_nil_r.
  - change (String.concat "/" (x :: y :: l))
      with (x +:+ "/" +:+ String.concat "/" (y :: l)).
    rewrite !bytes_app, IH. reflexivity.
Qed.

Lemma bytes_concat_snoc (l : list string) (x : string) :
  l <> [] ->
  bytes (String.concat "/" (l ++ [x]))
  = bytes (String.concat "/" l) ++ "/"%char :: bytes x.
Proof.
  destruct l as [| a l]; [congruence |]. intros _.
  rewrite <- app_comm_cons, !bytes_concat_cons, slashed_app.
  simpl. now rewrite app_nil_r, <- app_assoc.
Qed.

(** *** The buffer as a function of what is kept *)

Lemma out_of_push (k : nat) (reals : list string) (seg : string) :
  repeat ".." k ++ rev reals <> [] ->
  out_of k (seg :: reals) = out_of k reals ++ "/"%char :: bytes seg.
Proof.
  intros H. unfold out_of. simpl rev. rewrite app_assoc.
  now apply bytes_concat_snoc.
Qed.

Lemma out_of_dotdot (k : nat) :
  k <> 0 -> out_of (S k) [] = out_of k [] ++ "/"%char :: bytes "..".
Proof.
  intros H. unfold out_of. simpl rev. rewrite !app_nil_r.
  simpl repeat. rewrite repeat_cons. apply bytes_concat_snoc.
  destruct k; [congruence | discriminate].
Qed.

Lemma kept_nil (k : nat) (reals : list string) :
  repeat ".." k ++ rev reals = [] -> k = 0 /\ reals = [].
Proof.
  intros H. apply app_eq_nil in H as [Hk Hr]. split.
  - destruct k; [reflexivity | discriminate].
  - destruct reals as [| r reals]; [reflexivity |].
    simpl in Hr. now apply app_eq_nil in Hr as [_ Hr].
Qed.

Lemma out_of_length_0 (k : nat) (reals : list string) :
  Forall (fun s => plain s = true) reals ->
  length (out_of k reals) = 0 -> k = 0 /\ reals = [].
Proof.
  intros Hreals Hlen.
  destruct (repeat ".." k ++ rev reals) as [| x l] eqn:E.
  - now apply kept_nil.
  - exfalso. unfold out_of in Hlen. rewrite E, bytes_concat_cons in Hlen.
    rewrite length_app in Hlen.
    assert (Hx : x <> "").
    { destruct k as [| k].
      - simpl in E. assert (Hin : In x (rev reals)) by (rewrite E; now left).
        apply in_rev in Hin. rewrite Forall_forall in Hreals.
        apply list_elem_of_In in Hin.
        now destruct (plain_inv _ (Hreals _ Hin)).
      - simpl in E. injection E as <- _. discriminate. }
    destruct x; [congruence | simpl in Hlen; lia].
Qed.

Lemma ddlen_le (k : nat) (reals : list string) :
  ddlen k <= length (out_of k reals).
Proof.
  induction reals as [| r reals IH]; [reflexivity |].
  destruct (repeat ".." k ++ rev reals) as [| x l] eqn:E.
  - apply kept_nil in E as [-> ->]. unfold ddlen. simpl. lia.
  - rewrite out_of_push by (rewrite E; discriminate).
    rewrite length_app. lia.
Qed.

Lemma ddlen_lt (k : nat) (r : string) (reals : list string) :
  Forall (fun s => plain s = true) (r :: reals) ->
  ddlen k < length (out_of k (r :: reals)).
Proof.
  intros H.
  destruct (Nat.eq_dec (length (out_of k (r :: reals))) (ddlen k)) as [E | E].
  - exfalso.
    destruct (repeat ".." k ++ rev reals) as [| x l] eqn:E'.
    + apply kept_nil in E' as [-> ->].
      apply (out_of_length_0 0 [r] H) in E as [_ E]. discriminate.
    + rewrite out_of_push in E by (rewrite E'; discriminate).
      rewrite length_app in E. pose proof (ddlen_le k reals). simpl in E. lia.
  - pose proof (ddlen_le k (r :: reals)). lia.
Qed.

(** *** The inner loops *)

Lemma nth_no_slash (r : list ascii) :
  Forall (fun c => Ascii.eqb c "/" = false) r ->
  forall m, Ascii.eqb (nth m r "000"%char) "/" = false.
Proof.
  induction 1 as [| c r Hc Hr IH]; intros [| m]; simpl; auto.
Qed.

Lemma back_to_slash (P r : list ascii) (D : nat) :
  Forall (fun c => Ascii.eqb c "/" = false) r ->
  D <= length P ->
  forall w, length P <= w -> back_to (P ++ "/"%char :: r) D w = length P.
Proof.
  intros Hr HD. induction w as [| w IH]; intros Hw.
  - simpl. lia.
  - simpl. destruct (Nat.eq_dec (length P) (S w)) as [E | E].
    + rewrite <- E, nth_middle. simpl. now rewrite andb_false_r.
    + assert (HDw : (D <? S w) = true) by (apply Nat.ltb_lt; lia).
      rewrite HDw. rewrite app_nth2 by lia.
      destruct (S w - length P) as [| m] eqn:Em; [lia |].
      simpl. rewrite (nth_no_slash r Hr m). simpl. apply IH. lia.
Qed.

Lemma back_to_floor (r : list ascii) :
  Forall (fun c => Ascii.eqb c "/" = false) r ->
  forall w, back_to r 0 w = 0.
Proof.
  intros Hr. induction w as [| w IH]; [reflexivity |].
  simpl. now rewrite (nth_no_slash r Hr (S w)).
Qed.

(** Backtracking drops the name kept last, with the slash before it. *)
Lemma backtrack_out_of (k : nat) (r : string) (reals : list string) :
  Forall (fun s => plain s = true) (r :: reals) ->
  backtrack (out_of k (r :: reals)) (ddlen k) = out_of k reals.
Proof.
  intros H. pose proof (Forall_inv H) as Hr. apply plain_inv in Hr.
  destruct Hr as (_ & _ & _ & Hr). apply no_slash_spec in Hr.
  unfold backtrack.
  destruct (repeat ".." k ++ rev reals) as [| x l] eqn:E.
  - apply kept_nil in E as [-> ->].
    change (out_of 0 [r]) with (bytes r). change (ddlen 0) with 0.
    now rewrite back_to_floor.
  - rewrite out_of_push by (rewrite E; discriminate).
    rewrite back_to_slash.
    + apply take_app_length.
    + exact Hr.
    + apply ddlen_le.
    + rewrite length_app. simpl. lia.
Qed.

Lemma copy_elem_spec (seg R : list ascii) :
  Forall (fun c => Ascii.eqb c "/" = false) seg ->
  elem_ends R = true ->
  forall out, copy_elem (seg ++ R) out = (out ++ seg, R).
Proof.
  intros Hseg HR. induction Hseg as [| c seg Hc Hseg IH]; intros out.
  - simpl. rewrite app_nil_r. destruct R as [| c R]; [reflexivity |].
    simpl in *. now rewrite HR.
  - simpl. rewrite Hc, IH, <- app_assoc. reflexivity.
Qed.

(** *** Enough fuel

    [path.Clean] runs its loop with [length path] turns of fuel; any fuel
    that covers what is left to read gives the same buffer, so the loop
    never stops short. *)

Lemma copy_elem_rest_length (rest : list ascii) :
  forall out, length (copy_elem rest out).2 <= length rest.
Proof.
  induction rest as [| c rest IH]; intros out; simpl; [lia |].
  destruct (Ascii.eqb c "/"); simpl; [lia |].
  specialize (IH (out ++ [c])). lia.
Qed.

Lemma clean_loop_fuel (fuel1 : nat) :
  forall (fuel2 : nat) (rooted : bool) (rest out : list ascii) (dotdot : nat),
    length rest <= fuel1 -> length rest <= fuel2 ->
    clean_loop fuel1 rooted rest out dotdot
    = clean_loop fuel2 rooted rest out dotdot.
Proof.
  induction fuel1 as [| fuel1 IH]; intros fuel2 rooted rest out dotdot H1 H2.
  - destruct rest; [| simpl in H1; lia]. destruct fuel2; reflexivity.
  - destruct rest as [| c rest1]; [destruct fuel2; reflexivity |].
    destruct fuel2 as [| fuel2]; [simpl in H2; lia |].
    simpl in H1, H2.
    assert (Htl : length (tl rest1) <= length rest1)
      by (destruct rest1; simpl; lia).
    cbn [clean_loop].
    destruct (Ascii.eqb c "/") eqn:Hc; [apply IH; lia |].
    destruct (Ascii.eqb c "." && elem_ends rest1); [apply IH; lia |].
    destruct (Ascii.eqb c "." && Ascii.eqb (hd "000"%char rest1) "."
              && elem_ends (tl rest1)).
    + destruct (dotdot <? length out); [apply IH; lia |].
      destruct (negb rooted); apply IH; lia.
    + match goal with
      | |- context [copy_elem (c :: rest1) ?o] =>
          pose proof (copy_elem_rest_length rest1 (o ++ [c])) as Hlen;
          assert (Hcopy : copy_elem (c :: rest1) o = copy_elem rest1 (o ++ [c]))
            by (simpl; now rewrite Hc);
          rewrite Hcopy;
          destruct (copy_elem rest1 (o ++ [c])) as [out2 rest']
      end.
      simpl in Hlen. apply IH; lia.
Qed.

(** An ordinary name is taken by none of the three special cases. *)
Lemma plain_not_special (seg : string) (c : ascii) (t R : list ascii) :
  plain seg = true -> bytes seg = c :: t -> elem_ends R = true ->
  Ascii.eqb c "/" = false
  /\ Ascii.eqb c "." && elem_ends (t ++ R) = false
  /\ Ascii.eqb c "." && Ascii.eqb (hd "000"%char (t ++ R)) "."
     && elem_ends (tl (t ++ R)) = false.
Proof.
  intros Hp Hb HR. apply plain_inv in Hp as (_ & Hd & Hdd & Hs).
  apply no_slash_spec in Hs. rewrite Hb in Hs.
  pose proof (Forall_inv Hs) as Hc. pose proof (Forall_inv_tail Hs) as Ht.
  split; [exact Hc |].
  destruct (Ascii.eqb_spec c ".") as [-> | Hcd]; [| now split].
  destruct t as [| c2 t].
  { exfalso. apply Hd. now apply bytes_inj. }
  pose proof (Forall_inv Ht) as Hc2. pose proof (Forall_inv_tail Ht) as Ht2.
  simpl. rewrite Hc2. split; [reflexivity |].
  destruct (Ascii.eqb_spec c2 ".") as [-> | Hc2d]; [| reflexivity].
  destruct t as [| c3 t].
  { exfalso. apply Hdd. now apply bytes_inj. }
  simpl. now rewrite (Forall_inv Ht2).
Qed.

End CleanFacts.

Section CleanSegments.

Lemma clean_step_plain (kept : list string) (seg : string) :
  plain seg = true -> clean_step kept seg = seg :: kept.
Proof.
  intros H. apply plain_inv in H as (H1 & H2 & H3 & _).
  apply String.eqb_neq in H1, H2, H3.
  unfold clean_step. now rewrite H1, H2, H3.
Qed.

Lemma clean_step_dotdot_none (k : nat) :
  clean_step (repeat ".." k) ".." = repeat ".." (S k).
Proof. destruct k; reflexivity. Qed.

Lemma clean_step_dotdot_some (r : string) (kept : list string) :
  plain r = true -> clean_step (r :: kept) ".." = kept.
Proof.
  intros H. apply plain_inv in H as (_ & _ & H & _).
  apply String.eqb_neq in H. unfold clean_step. simpl. now rewrite H.
Qed.

(** The loop of [path.Clean], not rooted, started between two segments
    with [k] leading [..] and the names [reals] in the buffer: it ends
    with the buffer of what [clean_step] keeps. *)
Lemma clean_loop_segments (segs : list string) :
  forall (k : nat) (reals : list string) (fuel : nat),
    Forall (fun s => plain s = true) reals ->
    forallb no_slash segs = true ->
    length (slashed segs) <= fuel ->
    clean_loop fuel false (slashed segs) (out_of k reals) (ddlen k)
    = bytes (String.concat "/"
               (rev (foldl clean_step (reals ++ repeat ".." k) segs))).
Proof.
  induction segs as [| seg segs IH]; intros k reals fuel Hreals Hsegs Hfuel.
  - simpl. unfold out_of. rewrite rev_app_distr, rev_repeat.
    destruct fuel; reflexivity.
  - simpl in Hsegs. apply andb_true_iff in Hsegs as [Hseg Hsegs].
    change (slashed (seg :: segs)) with ("/"%char :: bytes seg ++ slashed segs)
      in *.
    simpl in Hfuel. rewrite length_app in Hfuel.
    destruct fuel as [| fuel]; [lia |].
    simpl foldl. cbn [clean_loop]. change (Ascii.eqb "/" "/") with true.
    cbn iota.
    destruct (String.eqb_spec seg "") as [-> | Hne].
    { (* an empty segment: the next slash follows at once *)
      simpl bytes. simpl app. apply IH; auto. simpl in Hfuel. lia. }
    destruct (String.eqb_spec seg ".") as [-> | Hnd].
    { simpl in Hfuel. destruct fuel as [| fuel]; [lia |].
      change (bytes "." ++ slashed segs) with ("."%char :: slashed segs).
      cbn [clean_loop]. change (Ascii.eqb "." "/") with false.
      change (Ascii.eqb "." ".") with true.
      rewrite elem_ends_slashed. cbn iota. simpl andb. cbn iota.
      apply IH; auto. lia. }
    destruct (String.eqb_spec seg "..") as [-> | Hndd].
    { simpl in Hfuel. destruct fuel as [| fuel]; [lia |].
      change (bytes ".." ++ slashed segs)
        with ("."%char :: "."%char :: slashed segs).
      cbn [clean_loop]. change (Ascii.eqb "." "/") with false.
      change (Ascii.eqb "." ".") with true.
      cbn [elem_ends hd tl andb]. change (Ascii.eqb "." "/") with false.
      change (Ascii.eqb "." ".") with true.
      rewrite elem_ends_slashed. cbn iota. cbn [andb negb].
      destruct reals as [| r reals].
      - (* nothing to remove: the [..] is kept *)
        assert (Hlt : (ddlen k <? length (out_of k [])) = false)
          by (apply Nat.ltb_ge; reflexivity).
        rewrite Hlt. change ([] ++ repeat ".." k) with (repeat ".." k).
        rewrite clean_step_dotdot_none.
        destruct k as [| k].
        + change (out_of 0 []) with (@nil ascii). simpl.
          apply (IH 1 []); auto. lia.
        + assert (Hpos : (0 <? length (out_of (S k) [])) = true).
          { apply Nat.ltb_lt.
            destruct (length (out_of (S k) [])) eqn:E; [| lia].
            apply out_of_length_0 in E as [E _]; [discriminate | constructor]. }
          rewrite Hpos. rewrite <- app_assoc.
          change (["/"%char] ++ ["."%char; "."%char])
            with ("/"%char :: bytes "..").
          rewrite <- out_of_dotdot by discriminate.
          apply (IH (S (S k)) []); auto. lia.
      - (* the name kept last is removed *)
        assert (Hlt : (ddlen k <? length (out_of k (r :: reals))) = true)
          by (apply Nat.ltb_lt; now apply ddlen_lt).
        rewrite Hlt, backtrack_out_of by assumption.
        rewrite <- app_comm_cons.
        rewrite clean_step_dotdot_some by exact (Forall_inv Hreals).
        apply IH; auto; [exact (Forall_inv_tail Hreals) | lia]. }
    (* an ordinary name *)
    assert (Hp : plain seg = true) by now apply plain_intro.
    destruct (bytes seg) as [| c t] eqn:Eb.
    { exfalso. apply Hne. now apply bytes_nil. }
    destruct (plain_not_special seg c t (slashed segs) Hp Eb
                (elem_ends_slashed segs)) as (T1 & T2 & T3).
    destruct fuel as [| fuel]; [simpl in Hfuel; lia |].
    rewrite <- app_comm_cons. cbn [clean_loop]. rewrite T1, T2, T3.
    cbn [andb orb negb].
    rewrite app_comm_cons, <- Eb.
    rewrite copy_elem_spec;
      [| apply no_slash_spec; now apply plain_inv in Hp | apply elem_ends_slashed].
    rewrite clean_step_plain by assumption.
    rewrite app_comm_cons.
    assert (Hout : (if negb (length (out_of k reals) =? 0)
                    then out_of k reals ++ ["/"%char] else out_of k reals)
                   ++ bytes seg = out_of k (seg :: reals)).
    { destruct (repeat ".." k ++ rev reals) as [| x l] eqn:E.
      - apply kept_nil in E as [-> ->]. reflexivity.
      - rewrite out_of_push by (rewrite E; discriminate).
        destruct (length (out_of k reals)) eqn:El.
        + apply out_of_length_0 in El as [-> ->]; [discriminate | assumption].
        + simpl. now rewrite <- app_assoc. }
    rewrite Hout.
    apply IH; auto.
    simpl in Hfuel. lia.
Qed.

End CleanSegments.

Section JoinFacts.

Lemma clean_step_nonempty (kept : list string) (seg : string) :
  Forall (fun s => s <> "") kept ->
  Forall (fun s => s <> "") (clean_step kept seg).
Proof.
  intros H. unfold clean_step.
  destruct (String.eqb_spec seg "") as [-> | Hne]; [exact H |].
  destruct (String.eqb seg "."); simpl; [exact H |].
  destruct (String.eqb seg "..").
  - destruct kept as [| top kept]; [now constructor |].
    destruct (String.eqb top "..");
      [now constructor | exact (Forall_inv_tail H)].
  - now constructor.
Qed.

Lemma clean_segments_nonempty (segs : list string) :
  Forall (fun s => s <> "") (clean_segments segs).
Proof.
  unfold clean_segments. apply Forall_rev.
  assert (H : Forall (fun s : string => s <> "") []) by constructor.
  revert H. generalize (@nil string).
  induction segs as [| seg segs IH]; intros kept H; [exact H |].
  simpl. apply IH. now apply clean_step_nonempty.
Qed.

(** [path.Clean] of segments joined by slashes, the first not empty. *)
Lemma path_Clean_segments (s1 : string) (rest : list string) :
  s1 <> "" -> no_slash s1 = true -> forallb no_slash rest = true ->
  path_Clean (String.concat "/" (s1 :: rest))
  = match clean_segments (s1 :: rest) with
    | [] => "."
    | kept => String.concat "/" kept
    end.
Proof.
  intros Hne Hs1 Hrest. unfold path_Clean.
  pose proof (bytes_concat_cons s1 rest) as Hb.
  destruct (bytes s1) as [| c t] eqn:Es1.
  { exfalso. apply Hne. now apply bytes_nil. }
  assert (Hc : Ascii.eqb c "/" = false).
  { apply no_slash_spec in Hs1. rewrite Es1 in Hs1. exact (Forall_inv Hs1). }
  destruct (String.eqb_spec (String.concat "/" (s1 :: rest)) "") as [E | _].
  { rewrite E in Hb. discriminate Hb. }
  cbv zeta. rewrite Hb. cbn [hd app]. rewrite Hc.
  assert (Hloop :
    clean_loop (length ((c :: t) ++ slashed rest)) false
      ((c :: t) ++ slashed rest) [] 0
    = bytes (String.concat "/" (clean_segments (s1 :: rest)))).
  { rewrite <- Es1.
    change (clean_loop (length (bytes s1 ++ slashed rest)) false
              (bytes s1 ++ slashed rest) [] 0)
      with (clean_loop (S (length (bytes s1 ++ slashed rest))) false
              (slashed (s1 :: rest)) (out_of 0 []) (ddlen 0)).
    rewrite clean_loop_segments.
    - reflexivity.
    - constructor.
    - simpl. now rewrite Hs1, Hrest.
    - simpl. lia. }
  change (c :: t ++ slashed rest) with ((c :: t) ++ slashed rest).
  rewrite Hloop. pose proof (clean_segments_nonempty (s1 :: rest)) as Hk.
  destruct (clean_segments (s1 :: rest)) as [| x l]; [reflexivity |].
  rewrite bytes_concat_cons, length_app.
  pose proof (Forall_inv Hk) as Hx.
  destruct x as [| cx x]; [congruence |].
  simpl length. simpl Nat.eqb. rewrite <- bytes_concat_cons. apply str_bytes.
Qed.

Lemma foldl_join_step (rest : list string) :
  forall buf : string,
    buf <> "" -> bytes (foldl join_step buf rest) = bytes buf ++ slashed rest.
Proof.
  induction rest as [| e rest IH]; intros buf Hbuf.
  - simpl. now rewrite app_nil_r.
  - destruct buf as [| c buf]; [congruence |].
    assert (Hj : join_step (String c buf) e = (String c buf +:+ "/") +:+ e)
      by reflexivity.
    simpl foldl. rewrite Hj, IH by discriminate.
    rewrite !bytes_app. simpl. now rewrite <- !app_assoc.
Qed.

Lemma size_zero_iff (elem : list string) :
  (foldr (fun e n => String.length e + n) 0 elem =? 0)
  = forallb (fun s => String.eqb s "") elem.
Proof.
  induction elem as [| e elem IH]; [reflexivity |].
  simpl. destruct e as [| c e]; simpl; [exact IH | reflexivity].
Qed.

(** [path.Join] of segments without a slash is the cleaning join told
    segment by segment. *)
Lemma path_Join_clean_join (segs : list string) :
  forallb no_slash segs = true -> path_Join segs = clean_join segs.
Proof.
  induction segs as [| s1 rest IH]; intros Hsegs; [reflexivity |].
  simpl in Hsegs. apply andb_true_iff in Hsegs as [Hs1 Hrest].
  destruct (String.eqb_spec s1 "") as [-> | Hne].
  - change (path_Join ("" :: rest)) with (path_Join rest).
    change (clean_join ("" :: rest)) with (clean_join rest).
    now apply IH.
  - unfold path_Join, clean_join. rewrite size_zero_iff. simpl forallb.
    apply String.eqb_neq in Hne. rewrite Hne. cbn [andb].
    apply String.eqb_neq in Hne.
    rewrite <- path_Clean_segments by assumption.
    f_equal. apply bytes_inj. simpl foldl.
    assert (Hstep : join_step "" s1 = s1).
    { unfold join_step. simpl. destruct s1; [congruence | reflexivity]. }
    rewrite Hstep, foldl_join_step, bytes_concat_cons by assumption.
    reflexivity.
Qed.

End JoinFacts.

Section CleaningJoinFacts.

(** What the cleaning join drops: an empty segment anywhere; a [.]
    segment and an ordinary name followed by [..], as long as some other
    segment is not empty (else the result turns from empty to [.]). *)

Lemma clean_segments_app (l1 l2 : list string) :
  clean_segments (l1 ++ l2)
  = rev (foldl clean_step (foldl clean_step [] l1) l2).
Proof. unfold clean_segments. now rewrite foldl_app. Qed.

Lemma clean_join_drop_empty (l1 l2 : list string) :
  clean_join (l1 ++ "" :: l2) = clean_join (l1 ++ l2).
Proof.
  unfold clean_join. rewrite !clean_segments_app, !forallb_app.
  reflexivity.
Qed.

Lemma clean_join_drop_dot (l1 l2 : list string) :
  forallb (fun s => String.eqb s "") (l1 ++ l2) = false ->
  clean_join (l1 ++ "." :: l2) = clean_join (l1 ++ l2).
Proof.
  intros H. unfold clean_join. rewrite H.
  rewrite !clean_segments_app, forallb_app. simpl forallb.
  now rewrite andb_false_r.
Qed.

Lemma clean_join_collapse (l1 l2 : list string) (x : string) :
  plain x = true ->
  forallb (fun s => String.eqb s "") (l1 ++ l2) = false ->
  clean_join (l1 ++ x :: ".." :: l2) = clean_join (l1 ++ l2).
Proof.
  intros Hx H. unfold clean_join. rewrite H.
  rewrite !clean_segments_app, forallb_app. simpl foldl.
  rewrite (clean_step_plain _ x Hx), (clean_step_dotdot_some x _ Hx).
  apply plain_inv in Hx as (Hne & _). apply String.eqb_neq in Hne.
  simpl forallb. now rewrite Hne, andb_false_r.
Qed.

End CleaningJoinFacts.

(* ===================================================================== *)
(** ** The option [Target] *)

Section TargetFacts.

Variable url_Parse : string -> error + URL.

(** What [Target] stores for a path [/b/s1/.../sn] whose pieces hold no
    slash: the URL, [b] as bucket, the cleaning join of the rest as base
    path; nothing else changes. *)
Lemma Target_segments (target : string) (u : URL) (b : string)
    (segs : list string) (cfg : Config) :
  url_Parse target = inr u ->
  Path u = "/" +:+ String.concat "/" (b :: segs) ->
  1 < String.length (Path u) ->
  no_slash b = true -> forallb no_slash segs = true ->
  Target url_Parse target cfg
  = Some (set_basePath (clean_join segs)
            (set_bucket b (set_target (Some u) cfg))).
Proof.
  intros Hparse Hpath Hlen Hb Hsegs. unfold Target. rewrite Hparse.
  apply Nat.ltb_lt in Hlen. rewrite Hlen, Hpath.
  change (slice_from 1 ("/" +:+ String.concat "/" (b :: segs)))
    with (String.concat "/" (b :: segs)).
  assert (Hsplit : strings_Split (String.concat "/" (b :: segs)) "/" = b :: segs).
  { replace (String.concat "/" (b :: segs)) with (b +:+ str (slashed segs)).
    - now apply strings_Split_slashed.
    - apply bytes_inj. now rewrite bytes_concat_cons, bytes_app, bytes_str. }
  rewrite Hsplit. simpl. now rewrite path_Join_clean_join.
Qed.

(** X1: [Target] never panics, whatever the string and the
    configuration: [strings.Split] returns at least one piece, so
    [parts[0]] is there. *)
Lemma Target_no_panic (target : string) (cfg : Config) :
  is_Some (Target url_Parse target cfg).
Proof.
  unfold Target. destruct (url_Parse target) as [err | u]; [eauto |].
  destruct (1 <? String.length (Path u)); [| eauto].
  pose proof (strings_Split_nonempty (slice_from 1 (Path u)) "/") as Hne.
  destruct (strings_Split (slice_from 1 (Path u)) "/") as [| part parts];
    [congruence | simpl; eauto].
Qed.

(** The three things [Target] can do, whatever the configuration. *)
Lemma Target_effect (target : string) :
  (exists err, url_Parse target = inl err
     /\ forall cfg, Target url_Parse target cfg = Some cfg)
  \/ (exists u, url_Parse target = inr u
        /\ (1 <? String.length (Path u)) = false
        /\ forall cfg,
             Target url_Parse target cfg = Some (set_target (Some u) cfg))
  \/ (exists u b p, url_Parse target = inr u
        /\ (1 <? String.length (Path u)) = true
        /\ forall cfg,
             Target url_Parse target cfg
             = Some (set_basePath p (set_bucket b (set_target (Some u) cfg)))).
Proof.
  unfold Target. destruct (url_Parse target) as [err | u].
  - left. eauto.
  - right. destruct (1 <? String.length (Path u)) eqn:Hlen.
    + right.
      pose proof (strings_Split_nonempty (slice_from 1 (Path u)) "/") as Hne.
      destruct (strings_Split (slice_from 1 (Path u)) "/") as [| part parts];
        [congruence |].
      exists u, part, (path_Join parts). simpl. eauto.
    + left. eauto.
Qed.

(** C4: for a URL that parses with path [/b/p1/p2], three ordinary
    segments, [Target] sets [target] to the parsed URL, [bucket] to [b]
    and [basePath] to [p1/p2], and leaves the other fields. *)
Theorem Target_three_segments (target : string) (u : URL)
    (b p1 p2 : string) (cfg : Config) :
  url_Parse target = inr u ->
  Path u = "/" +:+ b +:+ "/" +:+ p1 +:+ "/" +:+ p2 ->
  no_slash b = true -> plain p1 = true -> plain p2 = true ->
  Target url_Parse target cfg
  = Some (set_basePath (p1 +:+ "/" +:+ p2)
            (set_bucket b (set_target (Some u) cfg))).
Proof.
  intros Hparse Hpath Hb Hp1 Hp2.
  pose proof (plain_inv p1 Hp1) as (Hne1 & _ & _ & Hs1).
  pose proof (plain_inv p2 Hp2) as (_ & _ & _ & Hs2).
  rewrite (Target_segments target u b [p1; p2] cfg Hparse).
  - unfold clean_join, clean_segments. simpl forallb.
    apply String.eqb_neq in Hne1. rewrite Hne1. simpl foldl.
    now rewrite (clean_step_plain [] p1 Hp1), (clean_step_plain [p1] p2 Hp2).
  - exact Hpath.
  - rewrite Hpath. change ("/" +:+ b +:+ "/" +:+ p1 +:+ "/" +:+ p2)
      with (String "/" (b +:+ String "/" (p1 +:+ "/" +:+ p2))).
    simpl. rewrite <- length_bytes, bytes_app. rewrite length_app. simpl. lia.
  - exact Hb.
  - simpl. now rewrite Hs1, Hs2.
Qed.

(** C6, as the code has it: of two [Target] applied in sequence the
    second overrides what it sets.  If its URL string parses with a path
    of more than one character, the result is that of the second applied
    alone; if the path is shorter only [target] is replaced, and if the
    string does not parse the first application stands. *)
Theorem Target_twice (s1 s2 : string) (cfg : Config) :
  Target url_Parse s1 cfg ≫= Target url_Parse s2
  = match url_Parse s2 with
    | inl _ => Target url_Parse s1 cfg
    | inr u2 =>
        if 1 <? String.length (Path u2) then Target url_Parse s2 cfg
        else set_target (Some u2) <$> Target url_Parse s1 cfg
    end.
Proof.
  destruct (Target_effect s2)
    as [(err2 & Hp2 & H2) | [(u2 & Hp2 & Hl2 & H2) | (u2 & b2 & q2 & Hp2 & Hl2 & H2)]];
    rewrite Hp2; try rewrite Hl2;
    destruct (Target_effect s1)
      as [(err1 & _ & H1) | [(u1 & _ & _ & H1) | (u1 & b1 & q1 & _ & _ & H1)]];
    rewrite ?H1, ?H2; simpl; rewrite ?H2; reflexivity.
Qed.

(** C7: a string that does not parse leaves the configuration as it is,
    and the option returns normally. *)
Theorem Target_parse_failure (target : string) (err : error) (cfg : Config) :
  url_Parse target = inl err -> Target url_Parse target cfg = Some cfg.
Proof. intros H. unfold Target. now rewrite H. Qed.

(** C10: the base path is the cleaning join of the segments after the
    bucket: empty and [.] segments dropped, [..] removing the segment
    before it, and nothing at all for a path of one segment. *)
Theorem Target_basePath_cleaning_join (target : string) (u : URL)
    (b : string) (segs : list string) (cfg : Config) :
  url_Parse target = inr u ->
  Path u = "/" +:+ String.concat "/" (b :: segs) ->
  1 < String.length (Path u) ->
  no_slash b = true -> forallb no_slash segs = true ->
  basePath <$> Target url_Parse target cfg = Some (clean_join segs).
Proof.
  intros Hparse Hpath Hlen Hb Hsegs.
  now rewrite (Target_segments target u b segs cfg Hparse Hpath Hlen Hb Hsegs).
Qed.

End TargetFacts.

(* ===================================================================== *)
(** ** The credential bootstrap *)

Section WorldFacts.

Lemma os_MkdirAll_ok (path : string) (perm : N) (w : World) :
  mkdir_fault w = None -> files w !! path = None ->
  os_MkdirAll path perm w
  = (inr tt, set_dirs ({[path]} ∪ dirs w) (logged (CallMkdirAll path perm) w)).
Proof.
  intros Hf Hp. unfold os_MkdirAll, bind, called, logged. wsimpl.
  now rewrite Hf, Hp.
Qed.

Lemma os_MkdirAll_fault (path : string) (perm : N) (w : World) (err : error) :
  mkdir_fault w = Some err ->
  os_MkdirAll path perm w = (inl err, logged (CallMkdirAll path perm) w).
Proof.
  intros Hf. unfold os_MkdirAll, bind, called, logged. wsimpl. now rewrite Hf.
Qed.

Lemma time_Now_run (w : World) :
  time_Now w = (inr (clock w), logged CallNow w).
Proof. reflexivity. Qed.

Lemma assign_MountTime_run (t : Time) (w : World) :
  assign_MountTime t w
  = (inr tt, set_MountTime t (logged (AssignMountTime t) w)).
Proof. reflexivity. Qed.

Lemma os_Stat_fault (name : string) (w : World) (err : error) :
  stat_fault w = Some err ->
  os_Stat name w = (inl err, logged (CallStat name) w).
Proof.
  intros Hf. unfold os_Stat, bind, called, logged. wsimpl. now rewrite Hf.
Qed.

Lemma os_Stat_absent (name : string) (w : World) :
  stat_fault w = None -> files w !! name = None -> name ∉ dirs w ->
  os_Stat name w = (inl ErrNotExist, logged (CallStat name) w).
Proof.
  intros Hf Hn Hd. unfold os_Stat, bind, called, logged. wsimpl. rewrite Hf.
  rewrite bool_decide_eq_false_2; [reflexivity |].
  rewrite Hn. intros [[x Hx] | Hin]; [discriminate | contradiction].
Qed.

Lemma os_Stat_file (name data : string) (w : World) :
  stat_fault w = None -> files w !! name = Some data ->
  os_Stat name w = (inr tt, logged (CallStat name) w).
Proof.
  intros Hf Hn. unfold os_Stat, bind, called, logged. wsimpl. rewrite Hf.
  rewrite bool_decide_eq_true_2; [reflexivity |]. left. eauto.
Qed.

Lemma os_Stat_logged (name : string) (w : World) :
  (os_Stat name w).2 = logged (CallStat name) w.
Proof.
  unfold os_Stat, bind, called, logged. wsimpl.
  destruct (stat_fault w); [| destruct (bool_decide _)]; reflexivity.
Qed.

Lemma os_Getenv_run (key : string) (w : World) :
  os_Getenv key w
  = (inr (default "" (env w !! key)), logged (CallGetenv key) w).
Proof. reflexivity. Qed.

Lemma ioutil_WriteFile_ok (name data : string) (perm : N) (w : World) :
  write_plan w = WriteDone -> name ∉ dirs w ->
  ioutil_WriteFile name data perm w
  = (inr tt, set_files (<[name := data]> (files w))
               (logged (CallWriteFile name data perm) w)).
Proof.
  intros Hp Hd. unfold ioutil_WriteFile, bind, called, logged. wsimpl. rewrite Hp.
  now rewrite bool_decide_eq_false_2.
Qed.

Lemma ioutil_ReadFile_ok (name data : string) (w : World) :
  read_fault w = None -> files w !! name = Some data ->
  ioutil_ReadFile name w = (inr data, logged (CallReadFile name) w).
Proof.
  intros Hf Hn. unfold ioutil_ReadFile, bind, called, logged. wsimpl.
  now rewrite Hf, Hn.
Qed.

Lemma log_Println_run (msg : string) (w : World) :
  log_Println msg w = (inr tt, logged (CallPrintln msg) w).
Proof. reflexivity. Qed.

Lemma catch_run {A : Type} (m : M A) (w w' : World) (r : error + A) :
  m w = (r, w') -> catch m w = (inr r, w').
Proof. intros H. unfold catch. now rewrite H. Qed.

End WorldFacts.

Section EncoderFacts.

(** The decoder reads at least one byte of a non-empty string, so the
    encoder's fuel [length s] is never used up. *)
Lemma utf8_DecodeRune_size (b : ascii) (s : list ascii) :
  1 <= (utf8_DecodeRune (b :: s)).2.
Proof.
  unfold utf8_DecodeRune.
  repeat match goal with
         | |- context [if ?c then _ else _] => destruct c
         | |- context [match ?l with [] => _ | _ :: _ => _ end] => destruct l
         | |- context [let '(_, _) := ?p in _] => destruct p
         end; simpl; lia.
Qed.

Lemma encode_bytes_fuel (fuel1 : nat) :
  forall (fuel2 : nat) (s : list ascii),
    length s <= fuel1 -> length s <= fuel2 ->
    encode_bytes fuel1 s = encode_bytes fuel2 s.
Proof.
  induction fuel1 as [| fuel1 IH]; intros fuel2 s H1 H2.
  - destruct s; [| simpl in H1; lia]. destruct fuel2; reflexivity.
  - destruct s as [| b s1]; [destruct fuel2; reflexivity |].
    destruct fuel2 as [| fuel2]; [simpl in H2; lia |].
    simpl in H1, H2. cbn [encode_bytes].
    destruct (N_of_ascii b <? 128)%N; [apply f_equal; apply IH; lia |].
    pose proof (utf8_DecodeRune_size b s1) as Hsize.
    destruct (utf8_DecodeRune (b :: s1)) as [c size]. cbn [snd] in Hsize.
    assert (Hdrop : length (drop size (b :: s1)) <= length s1).
    { rewrite length_drop. simpl. lia. }
    destruct ((c =? RuneError)%N && (size =? 1));
      [apply f_equal; apply IH; lia |].
    destruct ((c =? 0x2028)%N || (c =? 0x2029)%N);
      [do 2 apply f_equal | apply f_equal]; apply IH; lia.
Qed.

Lemma encode_bytes_safe (s : list ascii) :
  forallb htmlSafeSet s = true ->
  forall fuel, length s <= fuel -> encode_bytes fuel s = s.
Proof.
  induction s as [| b s IH]; intros Hs fuel Hfuel.
  - destruct fuel; reflexivity.
  - simpl in Hs. apply andb_true_iff in Hs as [Hb Hs].
    destruct fuel as [| fuel]; [simpl in Hfuel; lia |].
    cbn [encode_bytes]. rewrite Hb.
    assert (Hlt : (N_of_ascii b <? 128)%N = true).
    { unfold htmlSafeSet in Hb. cbv zeta in Hb.
      repeat (apply andb_true_iff in Hb; destruct Hb as [Hb ?]).
      assumption. }
    rewrite Hlt. simpl. f_equal. apply IH; [exact Hs | simpl in Hfuel; lia].
Qed.

Lemma json_string_safe (s : string) :
  forallb htmlSafeSet (bytes s) = true -> json_string s = quoted s.
Proof.
  intros Hs. unfold json_string, quoted.
  rewrite encode_bytes_safe by (rewrite ?length_bytes; auto).
  apply bytes_inj. rewrite bytes_str. simpl.
  change (bytes (String dquote (s +:+ String dquote "")))
    with (dquote :: bytes (s +:+ String dquote "")).
  now rewrite bytes_app.
Qed.

(** The document [json.Marshal] writes for keys that need no escape. *)
Lemma json_Marshal_safe (a b : string) :
  forallb htmlSafeSet (bytes a) = true ->
  forallb htmlSafeSet (bytes b) = true ->
  json_Marshal (mkAccessConfig "1" a b "") = inr (first_run_document a b).
Proof.
  intros Ha Hb. unfold json_Marshal, first_run_document.
  cbn [Version AccessKey SecretKey SecretToken].
  now rewrite !json_string_safe by (assumption || reflexivity).
Qed.

End EncoderFacts.

Section SteadyFacts.

Lemma steady_ret {A : Type} (a : A) : steady (ret a).
Proof. intros w. split; [reflexivity | exists []; apply eq_sym, app_nil_r]. Qed.

Lemma steady_throw {A : Type} (err : error) : steady (@throw A err).
Proof. intros w. split; [reflexivity | exists []; apply eq_sym, app_nil_r]. Qed.

Lemma steady_lift {A : Type} (r : error + A) : steady (lift r).
Proof. intros w. split; [reflexivity | exists []; apply eq_sym, app_nil_r]. Qed.

Lemma steady_called (c : Call) : steady (called c).
Proof. intros w. split; [reflexivity | now exists [c]]. Qed.

Lemma steady_bind {A B : Type} (m : M A) (k : A -> M B) :
  steady m -> (forall a, steady (k a)) -> steady (bind m k).
Proof.
  intros Hm Hk w. unfold bind. destruct (Hm w) as (Ht & l & Hl).
  destruct (m w) as [[err | a] w1]; simpl in *.
  - split; [exact Ht | now exists l].
  - destruct (Hk a w1) as (Ht' & l' & Hl'). split; [congruence |].
    exists (l ++ l'). now rewrite Hl', Hl, app_assoc.
Qed.

Lemma steady_run {A : Type} (m : M A) (w w' : World) (r : error + A) :
  steady m -> m w = (r, w') ->
  MountTime w' = MountTime w /\ exists l, trace w' = trace w ++ l.
Proof. intros H E. specialize (H w). now rewrite E in H. Qed.

Lemma steady_catch {A : Type} (m : M A) : steady m -> steady (catch m).
Proof.
  intros Hm w. unfold catch. specialize (Hm w).
  now destruct (m w) as [r w1].
Qed.

Lemma steady_os_Stat (name : string) : steady (os_Stat name).
Proof.
  intros w. unfold os_Stat, bind, called, logged. wsimpl.
  destruct (stat_fault w); [| destruct (bool_decide _)];
    (split; [reflexivity | now exists [CallStat name]]).
Qed.

Lemma steady_os_Getenv (key : string) : steady (os_Getenv key).
Proof. intros w. split; [reflexivity | now exists [CallGetenv key]]. Qed.

Lemma steady_log_Println (msg : string) : steady (log_Println msg).
Proof. apply steady_called. Qed.

Lemma steady_ioutil_WriteFile (name data : string) (perm : N) :
  steady (ioutil_WriteFile name data perm).
Proof.
  intros w. unfold ioutil_WriteFile, bind, called, logged. wsimpl.
  destruct (write_plan w); [destruct (bool_decide _) | |];
    (split; [reflexivity | now exists [CallWriteFile name data perm]]).
Qed.

Lemma steady_ioutil_ReadFile (name : string) : steady (ioutil_ReadFile name).
Proof.
  intros w. unfold ioutil_ReadFile, bind, called, logged. wsimpl.
  destruct (read_fault w); [| destruct (files w !! name)];
    (split; [reflexivity | now exists [CallReadFile name]]).
Qed.

End SteadyFacts.

Create HintDb steady.

#[local] Hint Resolve steady_ret steady_throw steady_lift steady_called
  steady_catch steady_os_Stat steady_os_Getenv steady_log_Println
  steady_ioutil_WriteFile steady_ioutil_ReadFile : steady.

Section BootstrapFacts.

Variable globalDBDir : string.
Variable globalConfigFile : string.
Variable json_Unmarshal : string -> AccessConfig -> error + AccessConfig.

(** C8: when [os.Stat] fails with an error that is not "not found", that
    error is returned at once: no record comes back, no file changes, and
    after the [Stat] nothing more is called, neither a write nor a
    read. *)
Theorem InitMinFSConfig_stat_error (w : World) (err : error) :
  mkdir_fault w = None -> files w !! globalDBDir = None ->
  stat_fault w = Some err -> os_IsNotExist err = false ->
  exists w',
    InitMinFSConfig globalDBDir globalConfigFile json_Unmarshal w
    = (inl err, w')
    /\ files w' = files w
    /\ trace w'
       = trace w ++ [CallMkdirAll globalDBDir perm_0777; CallNow;
                     AssignMountTime (clock w); CallStat globalConfigFile].
Proof.
  intros Hmk Hdir Hstat Herr. unfold InitMinFSConfig.
  step os_MkdirAll_ok. step time_Now_run. step assign_MountTime_run.
  wsimpl.
  unfold bind at 1. erewrite catch_run by (apply os_Stat_fault; wsimpl; eauto).
  cbv beta iota. rewrite Herr. unfold throw.
  eexists. split; [reflexivity |]. unfold logged. wsimpl. split; [reflexivity |].
  now rewrite <- !app_assoc.
Qed.

(** C2: on a first run (nothing at the path of the credential file, no
    failing call) with MINFS_ACCESS_KEY set to [a], MINFS_SECRET_KEY set to
    [b], both made of bytes the JSON encoder writes unescaped, and
    MINFS_SECRET_TOKEN unset, the credential file is written with the
    document of version 1, [a], [b] and an empty token, and that record is
    returned. *)
Theorem InitMinFSConfig_first_run (w : World) (a b : string) :
  mkdir_fault w = None -> files w !! globalDBDir = None ->
  stat_fault w = None -> write_plan w = WriteDone ->
  files w !! globalConfigFile = None -> globalConfigFile ∉ dirs w ->
  globalConfigFile <> globalDBDir ->
  env w !! "MINFS_ACCESS_KEY" = Some a ->
  env w !! "MINFS_SECRET_KEY" = Some b ->
  env w !! "MINFS_SECRET_TOKEN" = None ->
  forallb htmlSafeSet (bytes a) = true ->
  forallb htmlSafeSet (bytes b) = true ->
  exists w',
    InitMinFSConfig globalDBDir globalConfigFile json_Unmarshal w
    = (inr (mkAccessConfig "1" a b ""), w')
    /\ files w' !! globalConfigFile = Some (first_run_document a b).
Proof.
  intros Hmk Hdir Hstat Hwr Hnone Hnodir Hne Ha Hb Ht Hsa Hsb.
  assert (Hnd : globalConfigFile ∉ {[globalDBDir]} ∪ dirs w).
  { intros [Hin | Hin]%elem_of_union; [| contradiction].
    apply elem_of_singleton in Hin. contradiction. }
  unfold InitMinFSConfig.
  step os_MkdirAll_ok. step time_Now_run. step assign_MountTime_run.
  unfold bind at 1.
  erewrite catch_run by (apply os_Stat_absent; wsimpl; eauto).
  cbv beta iota. cbn [os_IsNotExist].
  step log_Println_run. step os_Getenv_run. step os_Getenv_run.
  step os_Getenv_run. unfold logged. wsimpl. rewrite Ha, Hb, Ht.
  cbn [default from_option].
  unfold bind at 1. unfold lift at 1. rewrite json_Marshal_safe by assumption.
  step ioutil_WriteFile_ok. unfold ret.
  eexists. split; [reflexivity |]. wsimpl. apply lookup_insert_eq.
Qed.

(** C3: on a later run (the credential file is there and decodes to
    [disk], no failing call) each key of the record returned is the value
    of its environment variable when that is not empty and the value on
    disk otherwise, and no file changes. *)
Theorem InitMinFSConfig_later_run (w : World) (data : string)
    (disk : AccessConfig) :
  mkdir_fault w = None -> files w !! globalDBDir = None ->
  stat_fault w = None -> read_fault w = None ->
  files w !! globalConfigFile = Some data ->
  json_Unmarshal data AccessConfig_zero = inr disk ->
  exists ac w',
    InitMinFSConfig globalDBDir globalConfigFile json_Unmarshal w = (inr ac, w')
    /\ files w' = files w
    /\ Version ac = Version disk
    /\ AccessKey ac = (if String.eqb (getenv w "MINFS_ACCESS_KEY") ""
                       then AccessKey disk else getenv w "MINFS_ACCESS_KEY")
    /\ SecretKey ac = (if String.eqb (getenv w "MINFS_SECRET_KEY") ""
                       then SecretKey disk else getenv w "MINFS_SECRET_KEY")
    /\ SecretToken ac = (if String.eqb (getenv w "MINFS_SECRET_TOKEN") ""
                         then SecretToken disk
                         else getenv w "MINFS_SECRET_TOKEN").
Proof.
  intros Hmk Hdir Hstat Hrd Hfile Hdec. unfold InitMinFSConfig.
  step os_MkdirAll_ok. step time_Now_run. step assign_MountTime_run.
  unfold bind at 1.
  erewrite catch_run by (eapply os_Stat_file; wsimpl; eauto).
  cbv beta iota.
  unfold bind at 1. erewrite ioutil_ReadFile_ok by (wsimpl; eauto).
  cbv beta iota.
  unfold bind at 1. unfold lift at 1. rewrite Hdec. cbv beta iota.
  step os_Getenv_run. step os_Getenv_run. step os_Getenv_run.
  unfold logged. wsimpl. fold (getenv w "MINFS_ACCESS_KEY").
  fold (getenv w "MINFS_SECRET_KEY"). fold (getenv w "MINFS_SECRET_TOKEN").
  unfold ret. eexists. eexists. split; [reflexivity |].
  wsimpl. split; [reflexivity |].
  destruct (String.eqb (getenv w "MINFS_ACCESS_KEY") "");
    destruct (String.eqb (getenv w "MINFS_SECRET_KEY") "");
    destruct (String.eqb (getenv w "MINFS_SECRET_TOKEN") "");
    repeat split; reflexivity.
Qed.

(** What follows the assignment to [MountTime] in [InitMinFSConfig]
    leaves it alone, whichever way it ends. *)
Lemma after_stat_steady (st : error + unit) :
  steady
    (match st with
     | inl err =>
         if os_IsNotExist err then
           _ <- log_Println "Initializing config.json for the first time, please update your access credentials." ;;
           accessKey <- os_Getenv "MINFS_ACCESS_KEY" ;;
           secretKey <- os_Getenv "MINFS_SECRET_KEY" ;;
           secretToken <- os_Getenv "MINFS_SECRET_TOKEN" ;;
           let ac := mkAccessConfig "1" accessKey secretKey secretToken in
           acBytes <- lift (json_Marshal ac) ;;
           _ <- ioutil_WriteFile globalConfigFile acBytes perm_0666 ;;
           ret ac
         else throw err
     | inr _ =>
         acBytes <- ioutil_ReadFile globalConfigFile ;;
         ac <- lift (json_Unmarshal acBytes AccessConfig_zero) ;;
         accessKey <- os_Getenv "MINFS_ACCESS_KEY" ;;
         secretKey <- os_Getenv "MINFS_SECRET_KEY" ;;
         secretToken <- os_Getenv "MINFS_SECRET_TOKEN" ;;
         let ac := if negb (String.eqb accessKey "")
                   then set_AccessKey accessKey ac else ac in
         let ac := if negb (String.eqb secretKey "")
                   then set_SecretKey secretKey ac else ac in
         let ac := if negb (String.eqb secretToken "")
                   then set_SecretToken secretToken ac else ac in
         ret ac
     end).
Proof.
  destruct st as [err | []]; [destruct (os_IsNotExist err) |];
    repeat (first [ solve [auto with steady]
                  | apply steady_bind; [| intros ?] ]).
Qed.

(** C9: once the directory is made, [MountTime] holds the time read from
    the clock, however the call ends, and it was assigned before the
    credential file was looked at. *)
Theorem InitMinFSConfig_assigns_MountTime (w : World) :
  mkdir_fault w = None -> files w !! globalDBDir = None ->
  let w' := (InitMinFSConfig globalDBDir globalConfigFile json_Unmarshal w).2 in
  MountTime w' = clock w
  /\ exists later,
       trace w'
       = trace w ++ [CallMkdirAll globalDBDir perm_0777; CallNow;
                     AssignMountTime (clock w); CallStat globalConfigFile]
                 ++ later.
Proof.
  intros Hmk Hdir.
  destruct (InitMinFSConfig globalDBDir globalConfigFile json_Unmarshal w)
    as [r w'] eqn:Hrun.
  cbn [snd]. revert Hrun. unfold InitMinFSConfig.
  step os_MkdirAll_ok. step time_Now_run. step assign_MountTime_run.
  match goal with
  | |- bind _ _ ?W = _ -> _ =>
      assert (HW : W = mounted globalDBDir w) by reflexivity; rewrite HW; clear HW
  end.
  unfold bind at 1.
  destruct (os_Stat globalConfigFile (mounted globalDBDir w)) as [st w1] eqn:Hst.
  rewrite (catch_run _ _ _ _ Hst). cbv beta iota.
  intros Hrun.
  apply steady_run in Hrun; [| apply after_stat_steady].
  destruct Hrun as (Ht & later & Hl).
  pose proof (os_Stat_logged globalConfigFile (mounted globalDBDir w)) as Hw1.
  rewrite Hst in Hw1. cbn [snd] in Hw1. subst w1.
  split; [exact Ht |]. exists later. rewrite Hl.
  unfold logged, mounted. wsimpl. unfold logged. wsimpl.
  now rewrite <- !app_assoc.
Qed.

(** Without the directory nothing is assigned. *)
Lemma InitMinFSConfig_mkdir_error (w : World) (err : error) :
  mkdir_fault w = Some err ->
  InitMinFSConfig globalDBDir globalConfigFile json_Unmarshal w
  = (inl err, logged (CallMkdirAll globalDBDir perm_0777) w).
Proof.
  intros Hmk. unfold InitMinFSConfig. unfold bind at 1.
  now rewrite (os_MkdirAll_fault _ _ _ _ Hmk).
Qed.

End BootstrapFacts.

(* ===================================================================== *)
(** ** Worked examples *)

(** C4 at the path [/b/p1/p2]. *)
Lemma Target_three_segments_example :
  Target url_Parse_sample "https://h/b/p1/p2" Config_zero
  = Some (set_basePath "p1/p2"
            (set_bucket "b"
               (set_target (Some (http_URL "https" "h" "/b/p1/p2"))
                  Config_zero))).
Proof.
  apply (Target_three_segments url_Parse_sample "https://h/b/p1/p2"
           (http_URL "https" "h" "/b/p1/p2") "b" "p1" "p2" Config_zero);
    reflexivity.
Defined.

(** C6 as stated fails.  After [Target("https://h/b/p1/p2")], a second
    [Target("https://h/")] replaces [target] and keeps the bucket and base
    path of the first, which are not what the second URL gives; and a
    second string that does not parse keeps the first [target] too. *)
Lemma Target_twice_keeps_first_bucket :
  (bucket <$> (Target url_Parse_sample "https://h/b/p1/p2" Config_zero
               ≫= Target url_Parse_sample "https://h/")) = Some "b"
  /\ (basePath <$> (Target url_Parse_sample "https://h/b/p1/p2" Config_zero
                    ≫= Target url_Parse_sample "https://h/")) = Some "p1/p2"
  /\ (target <$> (Target url_Parse_sample "https://h/b/p1/p2" Config_zero
                  ≫= Target url_Parse_sample "https://h/"))
     = Some (Some (http_URL "https" "h" "/"))
  /\ (bucket <$> Target url_Parse_sample "https://h/" Config_zero) = Some ""
  /\ (bucket <$> (Target url_Parse_sample "https://h/b/p1/p2" Config_zero
                  ≫= Target url_Parse_sample "https://h/"))
     <> (bucket <$> Target url_Parse_sample "https://h/" Config_zero)
  /\ (target <$> (Target url_Parse_sample "https://h/b" Config_zero
                  ≫= Target url_Parse_sample "://h/b"))
     = Some (Some (http_URL "https" "h" "/b")).
Proof. repeat split; try reflexivity. discriminate. Qed.

(** C7 at a string without a scheme before the colon. *)
Lemma Target_parse_failure_example :
  Target url_Parse_sample "://h/b" Config_zero = Some Config_zero.
Proof.
  apply (Target_parse_failure url_Parse_sample "://h/b"
           (ErrorString "parse ://h/b: missing protocol scheme") Config_zero).
  reflexivity.
Defined.

(** C10 at the paths [/b//p], [/b/./p], [/b/x/../p] and [/b]. *)
Lemma Target_basePath_examples :
  (basePath <$> Target url_Parse_sample "https://h/b//p" Config_zero)
  = Some "p"
  /\ (basePath <$> Target url_Parse_sample "https://h/b/./p" Config_zero)
     = Some "p"
  /\ (basePath <$> Target url_Parse_sample "https://h/b/x/../p" Config_zero)
     = Some "p"
  /\ (basePath <$> Target url_Parse_sample "https://h/b" Config_zero)
     = Some "".
Proof.
  split; [| split; [| split]].
  - apply (Target_basePath_cleaning_join url_Parse_sample "https://h/b//p"
             (http_URL "https" "h" "/b//p") "b" [""; "p"] Config_zero);
      solve [reflexivity | simpl; lia].
  - apply (Target_basePath_cleaning_join url_Parse_sample "https://h/b/./p"
             (http_URL "https" "h" "/b/./p") "b" ["."; "p"] Config_zero);
      solve [reflexivity | simpl; lia].
  - apply (Target_basePath_cleaning_join url_Parse_sample "https://h/b/x/../p"
             (http_URL "https" "h" "/b/x/../p") "b" ["x"; ".."; "p"]
             Config_zero);
      solve [reflexivity | simpl; lia].
  - apply (Target_basePath_cleaning_join url_Parse_sample "https://h/b"
             (http_URL "https" "h" "/b") "b" [] Config_zero);
      solve [reflexivity | simpl; lia].
Defined.

(** The conventions of [path.Clean] at the edges: a base path whose
    segments all cancel is [.], and a [..] with nothing before it stays. *)
Example path_Join_edges :
  path_Join ["."] = "." /\ path_Join ["x"; ".."] = "."
  /\ path_Join [".."; "p"] = "../p" /\ path_Join [""; ""] = ""
  /\ path_Join [] = "".
Proof. repeat split; reflexivity. Qed.

(** C2 for the keys [A] and [B]. *)
Lemma InitMinFSConfig_first_run_example :
  exists w',
    InitMinFSConfig sample_dir sample_file json_Unmarshal_sample world_first_run
    = (inr (mkAccessConfig "1" "A" "B" ""), w')
    /\ files w' !! sample_file = Some (first_run_document "A" "B").
Proof.
  apply (InitMinFSConfig_first_run sample_dir sample_file json_Unmarshal_sample
           world_first_run "A" "B");
    try (vm_compute; reflexivity).
  - apply not_elem_of_empty.
  - discriminate.
Defined.

(** C3 for the record with keys [A] and [B] on disk and MINFS_SECRET_KEY
    set to [C]. *)
Lemma InitMinFSConfig_later_run_example :
  exists ac w',
    InitMinFSConfig sample_dir sample_file json_Unmarshal_sample world_later_run
    = (inr ac, w')
    /\ files w' = files world_later_run
    /\ Version ac = ""
    /\ AccessKey ac = "A"
    /\ SecretKey ac = "C"
    /\ SecretToken ac = "".
Proof.
  apply (InitMinFSConfig_later_run sample_dir sample_file json_Unmarshal_sample
           world_later_run sample_document
           (mkAccessConfig "" "A" "B" ""));
    vm_compute; reflexivity.
Defined.

(** C8 for a permission error. *)
Lemma InitMinFSConfig_stat_error_example :
  exists w',
    InitMinFSConfig sample_dir sample_file json_Unmarshal_sample world_denied
    = (inl ErrPermission, w')
    /\ files w' = files world_denied
    /\ trace w'
       = [CallMkdirAll sample_dir perm_0777; CallNow;
          AssignMountTime 1700000000%Z; CallStat sample_file].
Proof.
  apply (InitMinFSConfig_stat_error sample_dir sample_file json_Unmarshal_sample
           world_denied ErrPermission);
    vm_compute; reflexivity.
Defined.

(** C9 for four calls that fail, at the stat, the read, the decoding and
    the write: the error is returned, and [MountTime], zero before, holds
    the time. *)
Lemma InitMinFSConfig_assigns_MountTime_example :
  Forall
    (fun '(w, err) =>
       (InitMinFSConfig sample_dir sample_file json_Unmarshal_sample w).1
       = inl err
       /\ MountTime w = 0%Z
       /\ MountTime
            (InitMinFSConfig sample_dir sample_file json_Unmarshal_sample w).2
          = 1700000000%Z)
    [(world_denied, ErrPermission);
     (world_unreadable, ErrIO "input/output error");
     (world_bad_document, ErrJSON "unexpected end of JSON input");
     (world_disk_full, ErrIO "no space left on device")].
Proof.
  repeat apply Forall_cons_2; try apply Forall_nil_2;
    (split; [vm_compute; reflexivity | split; [reflexivity |]]);
    apply (InitMinFSConfig_assigns_MountTime sample_dir sample_file
             json_Unmarshal_sample);
    vm_compute; reflexivity.
Defined.

(* ===================================================================== *)
(** ** Further facts: pieces and base paths *)

Section PiecesFacts.

(** No piece of [strings.Split] holds the separator. *)
Lemma strings_Split_pieces (s : string) :
  forallb no_slash (strings_Split s "/") = true.
Proof.
  induction s as [| c s IH]; [reflexivity |].
  simpl. destruct (Ascii.eqb c "/") eqn:Hc; [exact IH |].
  destruct (strings_Split s "/") as [| piece pieces]; simpl in *.
  - now rewrite no_slash_cons, Hc.
  - now rewrite no_slash_cons, Hc.
Qed.

(** Joining the pieces with the separator gives the string back. *)
Lemma strings_Split_concat (s : string) :
  String.concat "/" (strings_Split s "/") = s.
Proof.
  induction s as [| c s IH]; [reflexivity |].
  pose proof (strings_Split_nonempty s "/") as Hne.
  simpl. destruct (Ascii.eqb_spec c "/") as [-> | Hc].
  - destruct (strings_Split s "/") as [| x l]; [congruence |].
    change (String.concat "/" ("" :: x :: l))
      with (String "/" (String.concat "/" (x :: l))).
    now rewrite IH.
  - destruct (strings_Split s "/") as [| piece pieces]; [congruence |].
    destruct pieces as [| y l].
    + simpl in *. now rewrite IH.
    + change (String.concat "/" (String c piece :: y :: l))
        with (String c (String.concat "/" (piece :: y :: l))).
      now rewrite IH.
Qed.

(** The first piece is empty exactly when the string starts with the
    separator. *)
Lemma strings_Split_hd_empty (c : ascii) (s : string) :
  hd "" (strings_Split (String c s) "/") = "" <-> c = "/"%char.
Proof.
  simpl. destruct (Ascii.eqb_spec c "/") as [-> | Hc].
  - simpl. tauto.
  - destruct (strings_Split s "/"); simpl; split; congruence.
Qed.

Lemma slashed_head (segs : list string) :
  slashed segs = [] \/ exists r, slashed segs = "/"%char :: r.
Proof. destruct segs; simpl; eauto. Qed.

(** *** The shape of what [clean_step] keeps: ordinary names on top of
    the [..] that found nothing to remove. *)

Lemma clean_step_shape (k : nat) (reals : list string) (seg : string) :
  forallb plain reals = true -> no_slash seg = true ->
  exists k' reals',
    clean_step (reals ++ repeat ".." k) seg = reals' ++ repeat ".." k'
    /\ forallb plain reals' = true.
Proof.
  intros Hreals Hseg.
  destruct (String.eqb_spec seg "") as [-> | Hne]; [exists k, reals; auto |].
  destruct (String.eqb_spec seg ".") as [-> | Hnd]; [exists k, reals; auto |].
  destruct (String.eqb_spec seg "..") as [-> | Hndd].
  - destruct reals as [| r reals].
    + exists (S k), []. split; [apply clean_step_dotdot_none | reflexivity].
    + simpl in Hreals. apply andb_true_iff in Hreals as [Hr Hreals].
      exists k, reals. split; [| exact Hreals].
      rewrite <- app_comm_cons. now apply clean_step_dotdot_some.
  - assert (Hp : plain seg = true) by now apply plain_intro.
    exists k, (seg :: reals). split.
    + now rewrite clean_step_plain.
    + simpl. now rewrite Hp.
Qed.

Lemma foldl_clean_step_shape (segs : list string) :
  forall (k : nat) (reals : list string),
    forallb plain reals = true -> forallb no_slash segs = true ->
    exists k' reals',
      foldl clean_step (reals ++ repeat ".." k) segs
      = reals' ++ repeat ".." k'
      /\ forallb plain reals' = true.
Proof.
  induction segs as [| seg segs IH]; intros k reals Hreals Hsegs.
  - exists k, reals. auto.
  - simpl in Hsegs. apply andb_true_iff in Hsegs as [Hseg Hsegs].
    destruct (clean_step_shape k reals seg Hreals Hseg)
      as (k1 & reals1 & E & Hreals1).
    simpl. rewrite E. now apply IH.
Qed.

Lemma clean_segments_shape (segs : list string) :
  forallb no_slash segs = true ->
  exists k reals,
    clean_segments segs = repeat ".." k ++ reals
    /\ forallb plain reals = true.
Proof.
  intros Hsegs.
  destruct (foldl_clean_step_shape segs 0 [] eq_refl Hsegs)
    as (k & reals & E & Hreals).
  exists k, (rev reals). unfold clean_segments.
  change (@nil string) with ([] ++ repeat ".." 0) at 1.
  rewrite E, rev_app_distr, rev_repeat. split; [reflexivity |].
  rewrite forallb_forall in *. intros x Hx. apply Hreals.
  now apply in_rev.
Qed.

(** Segments of that shape are what [clean_segments] returns for them. *)
Lemma foldl_clean_step_dotdots (k : nat) :
  forall j, foldl clean_step (repeat ".." j) (repeat ".." k)
            = repeat ".." (k + j).
Proof.
  induction k as [| k IH]; intros j; [reflexivity |].
  simpl repeat at 2. simpl foldl. rewrite clean_step_dotdot_none, IH.
  f_equal. lia.
Qed.

Lemma foldl_clean_step_plain (reals : list string) :
  forall kept, forallb plain reals = true ->
               foldl clean_step kept reals = rev reals ++ kept.
Proof.
  induction reals as [| r reals IH]; intros kept H; [reflexivity |].
  simpl in H. apply andb_true_iff in H as [Hr H].
  simpl. rewrite clean_step_plain by exact Hr. rewrite IH by exact H.
  now rewrite <- app_assoc.
Qed.

Lemma clean_segments_fixed (k : nat) (reals : list string) :
  forallb plain reals = true ->
  clean_segments (repeat ".." k ++ reals) = repeat ".." k ++ reals.
Proof.
  intros H. unfold clean_segments. rewrite foldl_app.
  change (@nil string) with (repeat ".." 0) at 1.
  rewrite foldl_clean_step_dotdots, foldl_clean_step_plain by exact H.
  rewrite rev_app_distr, rev_involutive, rev_repeat. f_equal. f_equal. lia.
Qed.

Lemma shape_no_slash (k : nat) (reals : list string) :
  forallb plain reals = true ->
  forallb no_slash (repeat ".." k ++ reals) = true.
Proof.
  intros H. rewrite forallb_app. apply andb_true_iff. split.
  - induction k; [reflexivity | exact IHk].
  - rewrite forallb_forall in *. intros x Hx.
    now destruct (plain_inv x (H x Hx)) as (_ & _ & _ & Hs).
Qed.

(** The three forms a cleaning join takes. *)
Lemma clean_join_cases (segs : list string) :
  forallb no_slash segs = true ->
  clean_join segs = "" \/ clean_join segs = "."
  \/ exists k reals x l,
       repeat ".." k ++ reals = x :: l
       /\ forallb plain reals = true
       /\ clean_join segs = String.concat "/" (x :: l).
Proof.
  intros Hsegs. unfold clean_join.
  destruct (forallb (fun s => String.eqb s "") segs); [now left |].
  destruct (clean_segments_shape segs Hsegs) as (k & reals & E & Hreals).
  destruct (clean_segments segs) as [| x l]; [right; now left |].
  right. right. exists k, reals, x, l. auto.
Qed.

(** Splitting a join of segments without a slash gives the segments. *)
Lemma strings_Split_of_concat (x : string) (l : list string) :
  forallb no_slash (x :: l) = true ->
  strings_Split (String.concat "/" (x :: l)) "/" = x :: l.
Proof.
  intros H. simpl in H. apply andb_true_iff in H as [Hx Hl].
  replace (String.concat "/" (x :: l)) with (x +:+ str (slashed l)).
  - now apply strings_Split_slashed.
  - apply bytes_inj. now rewrite bytes_concat_cons, bytes_app, bytes_str.
Qed.

(** Cleaning what is clean changes nothing. *)
Lemma clean_join_again (segs : list string) :
  forallb no_slash segs = true ->
  clean_join (strings_Split (clean_join segs) "/") = clean_join segs.
Proof.
  intros Hsegs.
  destruct (clean_join_cases segs Hsegs)
    as [-> | [-> | (k & reals & x & l & E & Hreals & ->)]];
    [reflexivity | reflexivity |].
  pose proof (shape_no_slash k reals Hreals) as Hns. rewrite E in Hns.
  rewrite (strings_Split_of_concat x l Hns).
  unfold clean_join. rewrite <- E, (clean_segments_fixed k reals Hreals), E.
  assert (Hx : x <> "").
  { destruct k as [| k]; simpl in E.
    - subst reals. simpl in Hreals. apply andb_true_iff in Hreals as [Hx _].
      now destruct (plain_inv x Hx).
    - injection E as <- _. discriminate. }
  simpl forallb. apply String.eqb_neq in Hx. now rewrite Hx.
Qed.

End PiecesFacts.

(* ===================================================================== *)
(** ** Further facts: the options *)

Section OptionsFacts.

Variable url_Parse : string -> error + URL.

(** What [Target] stores for any path of more than one byte: the pieces
    of the path after its first byte give the bucket and, cleaned, the
    base path. *)
Lemma Target_long_path (target : string) (u : URL) (cfg : Config) :
  url_Parse target = inr u -> (1 <? String.length (Path u)) = true ->
  Target url_Parse target cfg
  = Some (set_basePath
            (clean_join (drop 1 (strings_Split (slice_from 1 (Path u)) "/")))
            (set_bucket (hd "" (strings_Split (slice_from 1 (Path u)) "/"))
               (set_target (Some u) cfg))).
Proof.
  intros Hparse Hlen. unfold Target. rewrite Hparse, Hlen.
  pose proof (strings_Split_nonempty (slice_from 1 (Path u)) "/") as Hne.
  pose proof (strings_Split_pieces (slice_from 1 (Path u))) as Hns.
  destruct (strings_Split (slice_from 1 (Path u)) "/") as [| part parts];
    [congruence |].
  simpl in Hns. apply andb_true_iff in Hns as [_ Hns].
  simpl. now rewrite path_Join_clean_join.
Qed.

Lemma Target_short_path (target : string) (u : URL) (cfg : Config) :
  url_Parse target = inr u -> (1 <? String.length (Path u)) = false ->
  Target url_Parse target cfg = Some (set_target (Some u) cfg).
Proof. intros Hparse Hlen. unfold Target. now rewrite Hparse, Hlen. Qed.

Lemma Target_no_parse (target : string) (err : error) (cfg : Config) :
  url_Parse target = inl err -> Target url_Parse target cfg = Some cfg.
Proof. intros Hparse. unfold Target. now rewrite Hparse. Qed.

Lemma String_get_1 (s : string) :
  match String.get 1 s with
  | Some c => exists c0 rest, s = String c0 (String c rest)
  | None => (1 <? String.length s) = false
  end.
Proof.
  destruct s as [| c0 [| c rest]]; simpl; eauto.
Qed.

Lemma validate_passes (cfg : Config) :
  validate cfg = None <->
  mountpoint cfg <> "" /\ target cfg <> None /\ bucket cfg <> "".
Proof.
  unfold validate.
  destruct (String.eqb_spec (mountpoint cfg) "") as [Hm | Hm];
    destruct (target cfg) as [u |];
    destruct (String.eqb_spec (bucket cfg) "") as [Hb | Hb];
    split; intros H; try discriminate; try tauto;
    try (destruct H as (? & ? & ?); congruence);
    repeat split; congruence.
Qed.

(** X2: [Target] writes to [target], [bucket] and [basePath] only: the
    eleven other fields come out as they went in, whatever the string. *)
Theorem Target_frame (target : string) (cfg : Config) :
  exists cfg',
    Target url_Parse target cfg = Some cfg'
    /\ cache cfg' = cache cfg /\ accountID cfg' = accountID cfg
    /\ accessKey cfg' = accessKey cfg /\ secretKey cfg' = secretKey cfg
    /\ secretToken cfg' = secretToken cfg /\ mountpoint cfg' = mountpoint cfg
    /\ insecure cfg' = insecure cfg /\ debug cfg' = debug cfg
    /\ uid cfg' = uid cfg /\ gid cfg' = gid cfg /\ mode cfg' = mode cfg.
Proof.
  destruct (Target_effect url_Parse target)
    as [(err & _ & H) | [(u & _ & _ & H) | (u & b & p & _ & _ & H)]];
    rewrite H; eexists; (split; [reflexivity |]); repeat split.
Qed.

(** X3: for a URL that parses with a path of more than one byte, the
    bucket stored is the run of bytes after the first byte of the path up
    to the next slash; it holds no slash. *)
Theorem Target_bucket_up_to_slash (target : string) (u : URL) (cfg : Config) :
  url_Parse target = inr u -> 1 < String.length (Path u) ->
  exists cfg' rest,
    Target url_Parse target cfg = Some cfg'
    /\ no_slash (bucket cfg') = true
    /\ slice_from 1 (Path u) = bucket cfg' +:+ rest
    /\ (rest = "" \/ exists r, rest = String "/" r).
Proof.
  intros Hparse Hlen. apply Nat.ltb_lt in Hlen.
  rewrite (Target_long_path target u cfg Hparse Hlen).
  pose proof (strings_Split_nonempty (slice_from 1 (Path u)) "/") as Hne.
  pose proof (strings_Split_pieces (slice_from 1 (Path u))) as Hns.
  pose proof (strings_Split_concat (slice_from 1 (Path u))) as Hcat.
  destruct (strings_Split (slice_from 1 (Path u)) "/") as [| part parts];
    [congruence |].
  simpl in Hns. apply andb_true_iff in Hns as [Hpart _].
  eexists. exists (str (slashed parts)). split; [reflexivity |].
  cbn [bucket set_basePath set_bucket hd]. split; [exact Hpart |]. split.
  - rewrite <- Hcat. apply bytes_inj.
    now rewrite bytes_concat_cons, bytes_app, bytes_str.
  - destruct (slashed_head parts) as [-> | (r & ->)]; [now left |].
    right. exists (str r). reflexivity.
Qed.

(** X4: when validation passes after [Target] and [Mountpoint]: the
    mountpoint is not empty and, if the string parses, its path has a
    second byte other than a slash (that byte starts the bucket); a path
    too short, or a string that does not parse, passes only on what the
    configuration held before. *)
Theorem validate_after_Target_Mountpoint (rawURL mnt : string)
    (cfg : Config) :
  validate <$> (Target url_Parse rawURL cfg ≫= Mountpoint mnt) = Some None
  <-> mnt <> ""
      /\ match url_Parse rawURL with
         | inl _ => target cfg <> None /\ bucket cfg <> ""
         | inr u =>
             match String.get 1 (Path u) with
             | Some c => c <> "/"%char
             | None => bucket cfg <> ""
             end
         end.
Proof.
  destruct (url_Parse rawURL) as [err | u] eqn:Hparse.
  - rewrite (Target_no_parse rawURL err cfg Hparse). simpl.
    split.
    + intros [= H]. now apply validate_passes in H.
    + intros H. f_equal. now apply validate_passes.
  - pose proof (String_get_1 (Path u)) as Hget.
    destruct (String.get 1 (Path u)) as [c |].
    + destruct Hget as (c0 & rest & Hpath).
      assert (Hlen : (1 <? String.length (Path u)) = true)
        by now rewrite Hpath.
      rewrite (Target_long_path rawURL u cfg Hparse Hlen), Hpath.
      cbn [slice_from]. simpl.
      pose proof (strings_Split_hd_empty c rest) as Hhd.
      split.
      * intros [= H]. apply validate_passes in H as (Hm & _ & Hb).
        cbn in Hm, Hb. split; [exact Hm |]. intros ->. apply Hb.
        now apply Hhd.
      * intros [Hm Hc]. f_equal. apply validate_passes. cbn.
        repeat split; [exact Hm | discriminate |].
        intros Hb. apply Hc. now apply Hhd.
    + rewrite (Target_short_path rawURL u cfg Hparse Hget). simpl.
      split.
      * intros [= H]. apply validate_passes in H as (Hm & _ & Hb).
        now split.
      * intros [Hm Hb]. f_equal. apply validate_passes. cbn.
        repeat split; [exact Hm | discriminate | exact Hb].
Qed.

(** X5: which error a fresh build gets.  On a configuration with no
    target and no bucket yet, after [Target] and a [Mountpoint] that is not
    empty, [validate] reports the target when the string does not parse,
    the bucket when the path is shorter than two bytes or has a slash as
    its second byte, and nothing otherwise. *)
Theorem validate_fresh_build (rawURL mnt : string) (cfg : Config) :
  target cfg = None -> bucket cfg = "" -> mnt <> "" ->
  validate <$> (Target url_Parse rawURL cfg ≫= Mountpoint mnt)
  = Some match url_Parse rawURL with
         | inl _ => Some target_error
         | inr u =>
             match String.get 1 (Path u) with
             | Some c => if Ascii.eqb c "/" then Some bucket_error else None
             | None => Some bucket_error
             end
         end.
Proof.
  intros Ht Hb Hm. apply String.eqb_neq in Hm.
  destruct (url_Parse rawURL) as [err | u] eqn:Hparse.
  - rewrite (Target_no_parse rawURL err cfg Hparse). simpl.
    unfold validate. cbn. now rewrite Hm, Ht.
  - pose proof (String_get_1 (Path u)) as Hget.
    destruct (String.get 1 (Path u)) as [c |].
    + destruct Hget as (c0 & rest & Hpath).
      assert (Hlen : (1 <? String.length (Path u)) = true)
        by now rewrite Hpath.
      rewrite (Target_long_path rawURL u cfg Hparse Hlen), Hpath.
      cbn [slice_from]. simpl. unfold validate. cbn. rewrite Hm.
      destruct (Ascii.eqb c "/"); [reflexivity |].
      now destruct (strings_Split rest "/").
    + rewrite (Target_short_path rawURL u cfg Hparse Hget). simpl.
      unfold validate. cbn. now rewrite Hm, Hb.
Qed.

(** X6: options that write different fields may be applied in either
    order: [Target] with each of the six others, and each two of the six
    others. *)
Theorem options_commute (rawURL mnt dir : string) (g i : N) (cfg : Config) :
  (Target url_Parse rawURL cfg ≫= Mountpoint mnt
   = Mountpoint mnt cfg ≫= Target url_Parse rawURL
   /\ Target url_Parse rawURL cfg ≫= CacheDir dir
      = CacheDir dir cfg ≫= Target url_Parse rawURL
   /\ Target url_Parse rawURL cfg ≫= SetGID g
      = SetGID g cfg ≫= Target url_Parse rawURL
   /\ Target url_Parse rawURL cfg ≫= SetUID i
      = SetUID i cfg ≫= Target url_Parse rawURL
   /\ Target url_Parse rawURL cfg ≫= Insecure
      = Insecure cfg ≫= Target url_Parse rawURL
   /\ Target url_Parse rawURL cfg ≫= Debug
      = Debug cfg ≫= Target url_Parse rawURL)
  /\ (Mountpoint mnt cfg ≫= CacheDir dir = CacheDir dir cfg ≫= Mountpoint mnt
      /\ Mountpoint mnt cfg ≫= SetGID g = SetGID g cfg ≫= Mountpoint mnt
      /\ Mountpoint mnt cfg ≫= SetUID i = SetUID i cfg ≫= Mountpoint mnt
      /\ Mountpoint mnt cfg ≫= Insecure = Insecure cfg ≫= Mountpoint mnt
      /\ Mountpoint mnt cfg ≫= Debug = Debug cfg ≫= Mountpoint mnt
      /\ CacheDir dir cfg ≫= SetGID g = SetGID g cfg ≫= CacheDir dir
      /\ CacheDir dir cfg ≫= SetUID i = SetUID i cfg ≫= CacheDir dir
      /\ CacheDir dir cfg ≫= Insecure = Insecure cfg ≫= CacheDir dir
      /\ CacheDir dir cfg ≫= Debug = Debug cfg ≫= CacheDir dir
      /\ SetGID g cfg ≫= SetUID i = SetUID i cfg ≫= SetGID g
      /\ SetGID g cfg ≫= Insecure = Insecure cfg ≫= SetGID g
      /\ SetGID g cfg ≫= Debug = Debug cfg ≫= SetGID g
      /\ SetUID i cfg ≫= Insecure = Insecure cfg ≫= SetUID i
      /\ SetUID i cfg ≫= Debug = Debug cfg ≫= SetUID i
      /\ Insecure cfg ≫= Debug = Debug cfg ≫= Insecure).
Proof.
  split.
  - unfold Mountpoint, CacheDir, SetGID, SetUID, Insecure, Debug.
    cbn [mbind option_bind].
    destruct (Target_effect url_Parse rawURL)
      as [(err & _ & H) | [(u & _ & _ & H) | (u & b & p & _ & _ & H)]];
      rewrite !H; cbn [mbind option_bind]; repeat split; reflexivity.
  - unfold Mountpoint, CacheDir, SetGID, SetUID, Insecure, Debug.
    cbn [mbind option_bind]. repeat (split; [reflexivity |]). reflexivity.
Qed.

(** X7: [Target] applied twice with one string is [Target] applied
    once. *)
Theorem Target_idempotent (rawURL : string) (cfg : Config) :
  Target url_Parse rawURL cfg ≫= Target url_Parse rawURL
  = Target url_Parse rawURL cfg.
Proof.
  destruct (Target_effect url_Parse rawURL)
    as [(err & _ & H) | [(u & _ & _ & H) | (u & b & p & _ & _ & H)]];
    rewrite !H; cbn [mbind option_bind]; rewrite H; reflexivity.
Qed.

(** X8: the bucket and the base path [Target] stores are a fixed point:
    a URL whose path is a slash, that bucket, a slash and that base path
    gives the same bucket and base path again. *)
Theorem Target_reparse (rawURL rawURL' : string) (u u' : URL)
    (cfg cfg1 cfg0 : Config) :
  url_Parse rawURL = inr u -> 1 < String.length (Path u) ->
  Target url_Parse rawURL cfg = Some cfg1 ->
  url_Parse rawURL' = inr u' ->
  Path u' = "/" +:+ bucket cfg1 +:+ "/" +:+ basePath cfg1 ->
  exists cfg2,
    Target url_Parse rawURL' cfg0 = Some cfg2
    /\ bucket cfg2 = bucket cfg1 /\ basePath cfg2 = basePath cfg1.
Proof.
  intros Hparse Hlen Hrun Hparse' Hpath'. apply Nat.ltb_lt in Hlen.
  rewrite (Target_long_path rawURL u cfg Hparse Hlen) in Hrun.
  pose proof (strings_Split_nonempty (slice_from 1 (Path u)) "/") as Hne.
  pose proof (strings_Split_pieces (slice_from 1 (Path u))) as Hns.
  destruct (strings_Split (slice_from 1 (Path u)) "/") as [| b segs];
    [congruence |].
  simpl in Hns. apply andb_true_iff in Hns as [Hb Hsegs].
  injection Hrun as <-. cbn [bucket basePath set_basePath set_bucket hd] in *.
  rewrite ?drop_0 in *.
  set (p := clean_join segs) in *.
  pose proof (strings_Split_nonempty p "/") as Hne'.
  pose proof (strings_Split_concat p) as Hcat.
  destruct (strings_Split p "/") as [| x l] eqn:Esplit; [congruence |].
  assert (Hshape : Path u' = "/" +:+ String.concat "/" (b :: x :: l)).
  { rewrite Hpath'.
    change (String.concat "/" (b :: x :: l))
      with (b +:+ "/" +:+ String.concat "/" (x :: l)).
    now rewrite Hcat. }
  eexists. split.
  - apply (Target_segments url_Parse rawURL' u' b (x :: l) cfg0 Hparse' Hshape).
    + rewrite Hpath'.
      change ("/" +:+ b +:+ "/" +:+ p) with (String "/" (b +:+ String "/" p)).
      simpl. rewrite <- length_bytes, bytes_app, length_app. simpl. lia.
    + exact Hb.
    + rewrite <- Esplit. apply strings_Split_pieces.
  - cbn [bucket basePath set_basePath set_bucket]. split; [reflexivity |].
    rewrite <- Esplit. unfold p. now apply clean_join_again.
Qed.

(** X9: the base path [Target] stores is clean: it is empty, or a lone
    dot, or its pieces between slashes are some [..] followed by ordinary
    names (none empty, none a dot), so it neither starts nor ends with a
    slash and has no two slashes in a row. *)
Theorem Target_basePath_clean (rawURL : string) (u : URL) (cfg : Config) :
  url_Parse rawURL = inr u -> 1 < String.length (Path u) ->
  exists cfg',
    Target url_Parse rawURL cfg = Some cfg'
    /\ (basePath cfg' = "" \/ basePath cfg' = "."
        \/ exists k reals,
             strings_Split (basePath cfg') "/" = repeat ".." k ++ reals
             /\ forallb plain reals = true).
Proof.
  intros Hparse Hlen. apply Nat.ltb_lt in Hlen.
  rewrite (Target_long_path rawURL u cfg Hparse Hlen).
  eexists. split; [reflexivity |]. cbn [basePath set_basePath].
  pose proof (strings_Split_pieces (slice_from 1 (Path u))) as Hns.
  assert (Hsegs : forallb no_slash
                    (drop 1 (strings_Split (slice_from 1 (Path u)) "/")) = true).
  { destruct (strings_Split (slice_from 1 (Path u)) "/"); [reflexivity |].
    simpl in Hns. now apply andb_true_iff in Hns as [_ Hns]. }
  destruct (clean_join_cases _ Hsegs)
    as [-> | [-> | (k & reals & x & l & E & Hreals & ->)]];
    [now left | right; now left |].
  right. right. exists k, reals. split; [| exact Hreals].
  rewrite E. apply strings_Split_of_concat. rewrite <- E.
  now apply shape_no_slash.
Qed.

(** X10: [validate] looks at nothing but whether the mountpoint, the
    target and the bucket are set: two configurations that agree on that
    get the same answer, whatever their credentials, cache, flags and
    owners. *)
Theorem validate_reads_three_fields (c1 c2 : Config) :
  (mountpoint c1 = "" <-> mountpoint c2 = "") ->
  (target c1 = None <-> target c2 = None) ->
  (bucket c1 = "" <-> bucket c2 = "") ->
  validate c1 = validate c2.
Proof.
  intros Hm Ht Hb. unfold validate.
  destruct (String.eqb_spec (mountpoint c1) "") as [E1 | E1];
    destruct (String.eqb_spec (mountpoint c2) "") as [E2 | E2];
    try tauto.
  destruct (target c1) as [u1 |] eqn:T1; destruct (target c2) as [u2 |] eqn:T2;
    try (exfalso; destruct Ht; discriminate || (try tauto);
         match goal with H : _ -> _ |- _ => discriminate (H eq_refl) end);
    try reflexivity.
  destruct (String.eqb_spec (bucket c1) "") as [B1 | B1];
    destruct (String.eqb_spec (bucket c2) "") as [B2 | B2];
    try tauto; reflexivity.
Qed.

End OptionsFacts.

(* ===================================================================== *)
(** ** Further facts: the bootstrap *)

Section WorldMoreFacts.

Lemma os_MkdirAll_error (path : string) (perm : N) (w : World) (err : error) :
  (os_MkdirAll path perm w).1 = inl err ->
  os_MkdirAll path perm w = (inl err, logged (CallMkdirAll path perm) w).
Proof.
  unfold os_MkdirAll, bind, called, logged. wsimpl.
  destruct (mkdir_fault w); [| destruct (files w !! path)]; cbn [fst];
    intros [= <-]; reflexivity.
Qed.

Lemma os_MkdirAll_cases (path : string) (perm : N) (w : World) :
  (exists err, (os_MkdirAll path perm w).1 = inl err)
  \/ (mkdir_fault w = None /\ files w !! path = None).
Proof.
  unfold os_MkdirAll, bind, called, logged. wsimpl.
  destruct (mkdir_fault w); [| destruct (files w !! path)]; cbn [fst]; eauto.
Qed.

Lemma ioutil_ReadFile_fault (name : string) (w : World) (err : error) :
  read_fault w = Some err ->
  ioutil_ReadFile name w = (inl err, logged (CallReadFile name) w).
Proof.
  intros Hf. unfold ioutil_ReadFile, bind, called, logged. wsimpl.
  now rewrite Hf.
Qed.

Lemma ioutil_WriteFile_open_fails (name data : string) (perm : N)
    (w : World) (err : error) :
  write_plan w = OpenFails err ->
  ioutil_WriteFile name data perm w
  = (inl err, logged (CallWriteFile name data perm) w).
Proof.
  intros Hp. unfold ioutil_WriteFile, bind, called, logged. wsimpl.
  now rewrite Hp.
Qed.

Lemma ioutil_WriteFile_write_fails (name data : string) (perm : N)
    (w : World) (err : error) (n : nat) :
  write_plan w = WriteFails err n ->
  ioutil_WriteFile name data perm w
  = (inl err,
     set_files (<[name := str (take n (bytes data))]> (files w))
       (logged (CallWriteFile name data perm) w)).
Proof.
  intros Hp. unfold ioutil_WriteFile, bind, called, logged. wsimpl.
  now rewrite Hp.
Qed.

Lemma json_Marshal_document (ac : AccessConfig) :
  json_Marshal ac = inr (credential_document ac).
Proof. reflexivity. Qed.

(** The overrides change nothing in a record that holds the environment's
    own values. *)
Lemma override_keys_first_run_record (w1 w : World) :
  (forall key, getenv w1 key = getenv w key) ->
  override_keys w1 (first_run_record w) = first_run_record w.
Proof.
  intros H. unfold override_keys, first_run_record. rewrite !H.
  destruct (String.eqb_spec (getenv w "MINFS_ACCESS_KEY") "");
    destruct (String.eqb_spec (getenv w "MINFS_SECRET_KEY") "");
    destruct (String.eqb_spec (getenv w "MINFS_SECRET_TOKEN") "");
    reflexivity.
Qed.

End WorldMoreFacts.

Section BootstrapMoreFacts.

Variable globalDBDir : string.
Variable globalConfigFile : string.
Variable json_Unmarshal : string -> AccessConfig -> error + AccessConfig.

(** A first run up to the call of [ioutil.WriteFile]. *)
Lemma first_run_reaches_write (w : World) :
  mkdir_fault w = None -> files w !! globalDBDir = None ->
  stat_fault w = None ->
  files w !! globalConfigFile = None -> globalConfigFile ∉ dirs w ->
  globalConfigFile <> globalDBDir ->
  InitMinFSConfig globalDBDir globalConfigFile json_Unmarshal w
  = bind (ioutil_WriteFile globalConfigFile
            (credential_document (first_run_record w)) perm_0666)
      (fun _ => ret (first_run_record w))
      (before_write globalDBDir globalConfigFile w).
Proof.
  intros Hmk Hdir Hstat Hnone Hnodir Hne.
  assert (Hnd : globalConfigFile ∉ {[globalDBDir]} ∪ dirs w).
  { intros [Hin | Hin]%elem_of_union; [| contradiction].
    apply elem_of_singleton in Hin. contradiction. }
  unfold InitMinFSConfig.
  step os_MkdirAll_ok. step time_Now_run. step assign_MountTime_run.
  unfold bind at 1.
  erewrite catch_run by (apply os_Stat_absent; unfold logged; wsimpl; eauto).
  cbv beta iota. cbn [os_IsNotExist].
  step log_Println_run. step os_Getenv_run. step os_Getenv_run.
  step os_Getenv_run.
  unfold bind at 1. unfold lift at 1. rewrite json_Marshal_document.
  cbv beta iota. reflexivity.
Qed.

(** A later run whose file is read and decoded. *)
Lemma later_run_result (w : World) (data : string) (disk : AccessConfig) :
  mkdir_fault w = None -> files w !! globalDBDir = None ->
  stat_fault w = None -> read_fault w = None ->
  files w !! globalConfigFile = Some data ->
  json_Unmarshal data AccessConfig_zero = inr disk ->
  exists w',
    InitMinFSConfig globalDBDir globalConfigFile json_Unmarshal w
    = (inr (override_keys w disk), w')
    /\ files w' = files w.
Proof.
  intros Hmk Hdir Hstat Hrd Hfile Hdec. unfold InitMinFSConfig.
  step os_MkdirAll_ok. step time_Now_run. step assign_MountTime_run.
  unfold bind at 1.
  erewrite catch_run by (eapply os_Stat_file; unfold logged; wsimpl; eauto).
  cbv beta iota.
  unfold bind at 1.
  erewrite ioutil_ReadFile_ok by (unfold logged; wsimpl; eauto).
  cbv beta iota.
  unfold bind at 1. unfold lift at 1. rewrite Hdec. cbv beta iota.
  step os_Getenv_run. step os_Getenv_run. step os_Getenv_run.
  unfold ret. eexists. split; [reflexivity | reflexivity].
Qed.


(** X12: when the credential file is there and [ioutil.ReadFile] fails,
    that error is returned; nothing is decoded, no environment variable is
    read, no file changes. *)
Theorem InitMinFSConfig_read_error (w : World) (data : string) (err : error) :
  mkdir_fault w = None -> files w !! globalDBDir = None ->
  stat_fault w = None -> files w !! globalConfigFile = Some data ->
  read_fault w = Some err ->
  exists w',
    InitMinFSConfig globalDBDir globalConfigFile json_Unmarshal w
    = (inl err, w')
    /\ files w' = files w
    /\ trace w'
       = trace w ++ [CallMkdirAll globalDBDir perm_0777; CallNow;
                     AssignMountTime (clock w); CallStat globalConfigFile;
                     CallReadFile globalConfigFile].
Proof.
  intros Hmk Hdir Hstat Hfile Hrd. unfold InitMinFSConfig.
  step os_MkdirAll_ok. step time_Now_run. step assign_MountTime_run.
  unfold bind at 1.
  erewrite catch_run by (eapply os_Stat_file; unfold logged; wsimpl; eauto).
  cbv beta iota. unfold bind at 1.
  erewrite ioutil_ReadFile_fault by (unfold logged; wsimpl; eauto).
  eexists. split; [reflexivity |]. unfold logged. wsimpl.
  split; [reflexivity |]. now rewrite <- !app_assoc.
Qed.

(** X13: when the credential file is read and [json.Unmarshal] rejects
    it, that error is returned; the environment is not consulted, so no
    override can stand in for a broken file, and no file changes. *)
Theorem InitMinFSConfig_decode_error (w : World) (data : string)
    (err : error) :
  mkdir_fault w = None -> files w !! globalDBDir = None ->
  stat_fault w = None -> read_fault w = None ->
  files w !! globalConfigFile = Some data ->
  json_Unmarshal data AccessConfig_zero = inl err ->
  exists w',
    InitMinFSConfig globalDBDir globalConfigFile json_Unmarshal w
    = (inl err, w')
    /\ files w' = files w
    /\ trace w'
       = trace w ++ [CallMkdirAll globalDBDir perm_0777; CallNow;
                     AssignMountTime (clock w); CallStat globalConfigFile;
                     CallReadFile globalConfigFile].
Proof.
  intros Hmk Hdir Hstat Hrd Hfile Hdec. unfold InitMinFSConfig.
  step os_MkdirAll_ok. step time_Now_run. step assign_MountTime_run.
  unfold bind at 1.
  erewrite catch_run by (eapply os_Stat_file; unfold logged; wsimpl; eauto).
  cbv beta iota. unfold bind at 1.
  erewrite ioutil_ReadFile_ok by (unfold logged; wsimpl; eauto).
  cbv beta iota. unfold bind at 1. unfold lift at 1. rewrite Hdec.
  eexists. split; [reflexivity |]. unfold logged. wsimpl.
  split; [reflexivity |]. now rewrite <- !app_assoc.
Qed.

(** X14: when a first run cannot write the credential file, the error of
    [ioutil.WriteFile] is returned and the record that was built is not;
    the last call is the write of the marshalled record. *)
Theorem InitMinFSConfig_write_error (w : World) (err : error) :
  mkdir_fault w = None -> files w !! globalDBDir = None ->
  stat_fault w = None ->
  files w !! globalConfigFile = None -> globalConfigFile ∉ dirs w ->
  globalConfigFile <> globalDBDir ->
  (write_plan w = OpenFails err \/ exists n, write_plan w = WriteFails err n) ->
  exists w',
    InitMinFSConfig globalDBDir globalConfigFile json_Unmarshal w
    = (inl err, w')
    /\ trace w'
       = trace (before_write globalDBDir globalConfigFile w)
         ++ [CallWriteFile globalConfigFile
               (credential_document (first_run_record w)) perm_0666].
Proof.
  intros Hmk Hdir Hstat Hnone Hnodir Hne Hplan.
  rewrite first_run_reaches_write by assumption.
  unfold bind at 1. destruct Hplan as [Hplan | [n Hplan]].
  - erewrite ioutil_WriteFile_open_fails by exact Hplan.
    eexists. split; reflexivity.
  - erewrite ioutil_WriteFile_write_fails by exact Hplan.
    eexists. split; reflexivity.
Qed.

(** X15: a first run, whatever the environment holds.  The record
    returned has version 1 and the three environment values, empty where
    a variable is unset; the credential file holds [json.Marshal] of that
    record, escapes included, and no other file changes. *)
Theorem InitMinFSConfig_first_run_any (w : World) :
  mkdir_fault w = None -> files w !! globalDBDir = None ->
  stat_fault w = None -> write_plan w = WriteDone ->
  files w !! globalConfigFile = None -> globalConfigFile ∉ dirs w ->
  globalConfigFile <> globalDBDir ->
  exists w',
    InitMinFSConfig globalDBDir globalConfigFile json_Unmarshal w
    = (inr (first_run_record w), w')
    /\ json_Marshal (first_run_record w)
       = inr (credential_document (first_run_record w))
    /\ files w'
       = <[globalConfigFile := credential_document (first_run_record w)]>
           (files w).
Proof.
  intros Hmk Hdir Hstat Hplan Hnone Hnodir Hne.
  rewrite first_run_reaches_write by assumption.
  unfold bind at 1. rewrite ioutil_WriteFile_ok.
  - eexists. split; [reflexivity |]. split; reflexivity.
  - exact Hplan.
  - unfold before_write, mounted, logged. wsimpl.
    intros [Hin | Hin]%elem_of_union; [| contradiction].
    apply elem_of_singleton in Hin. contradiction.
Qed.

(** X16: a credential file that is there is never written: when
    [os.Stat] finds it, every run leaves every file as it was, whether
    the directory can be made, the file read, or its content decoded. *)
Theorem InitMinFSConfig_keeps_existing_file (w : World) (data : string) :
  stat_fault w = None -> files w !! globalConfigFile = Some data ->
  files (InitMinFSConfig globalDBDir globalConfigFile json_Unmarshal w).2
  = files w.
Proof.
  intros Hstat Hfile.
  destruct (os_MkdirAll_cases globalDBDir perm_0777 w)
    as [[err Herr] | [Hmk Hdir]].
  { unfold InitMinFSConfig. unfold bind at 1.
    now rewrite (os_MkdirAll_error _ _ _ _ Herr). }
  unfold InitMinFSConfig.
  step os_MkdirAll_ok. step time_Now_run. step assign_MountTime_run.
  unfold bind at 1.
  erewrite catch_run by (eapply os_Stat_file; unfold logged; wsimpl; eauto).
  cbv beta iota. unfold bind at 1.
  destruct (read_fault w) as [err |] eqn:Hrd.
  { erewrite ioutil_ReadFile_fault by (unfold logged; wsimpl; eauto).
    reflexivity. }
  erewrite ioutil_ReadFile_ok by (unfold logged; wsimpl; eauto).
  cbv beta iota. unfold bind at 1. unfold lift at 1.
  destruct (json_Unmarshal data AccessConfig_zero) as [err | disk];
    [reflexivity |].
  step os_Getenv_run. step os_Getenv_run. step os_Getenv_run.
  reflexivity.
Qed.

(** X17: a first run followed by a second.  If the decoder reads the
    written document back as the record, the second run returns the
    record the first returned and changes no file: the overrides find the
    values they would set. *)
Theorem InitMinFSConfig_twice (w : World) :
  mkdir_fault w = None -> files w !! globalDBDir = None ->
  stat_fault w = None -> read_fault w = None -> write_plan w = WriteDone ->
  files w !! globalConfigFile = None -> globalConfigFile ∉ dirs w ->
  globalConfigFile <> globalDBDir ->
  json_Unmarshal (credential_document (first_run_record w)) AccessConfig_zero
  = inr (first_run_record w) ->
  exists w1 w2,
    InitMinFSConfig globalDBDir globalConfigFile json_Unmarshal w
    = (inr (first_run_record w), w1)
    /\ InitMinFSConfig globalDBDir globalConfigFile json_Unmarshal w1
       = (inr (first_run_record w), w2)
    /\ files w2 = files w1.
Proof.
  intros Hmk Hdir Hstat Hrd Hplan Hnone Hnodir Hne Hdec.
  rewrite first_run_reaches_write by assumption.
  unfold bind at 1. rewrite ioutil_WriteFile_ok;
    [| exact Hplan
     | unfold before_write, mounted, logged; wsimpl;
       intros [Hin | Hin]%elem_of_union; [| contradiction];
       apply elem_of_singleton in Hin; contradiction].
  unfold ret. set (w1 := set_files _ _). exists w1.
  destruct (later_run_result w1 (credential_document (first_run_record w))
              (first_run_record w))
    as (w2 & Hrun & Hfiles); try assumption.
  - unfold w1, before_write, mounted, logged. wsimpl.
    rewrite lookup_insert_ne by exact Hne. exact Hdir.
  - unfold w1, before_write, mounted, logged. wsimpl. apply lookup_insert_eq.
  - exists w2. split; [reflexivity |]. split; [| exact Hfiles].
    rewrite Hrun. f_equal. f_equal.
    now apply override_keys_first_run_record.
Qed.

End BootstrapMoreFacts.

(* ===================================================================== *)
(** ** Further worked examples *)

(** X3 at the path [//p]: the bucket is empty, the rest is [/p]. *)
Lemma Target_bucket_up_to_slash_example :
  exists cfg' rest,
    Target url_Parse_sample_more "https://h//p" Config_zero = Some cfg'
    /\ no_slash (bucket cfg') = true
    /\ "/p" = bucket cfg' +:+ rest
    /\ (rest = "" \/ exists r, rest = String "/" r).
Proof.
  apply (Target_bucket_up_to_slash url_Parse_sample_more "https://h//p"
           (http_URL "https" "h" "//p") Config_zero);
    [reflexivity | simpl; lia].
Defined.

(** X5 at a string that does not parse, at the paths [/] and [//p], and
    at the path [/b/p]. *)
Lemma validate_fresh_build_example :
  (validate <$> (Target url_Parse_sample_more "://h/b" Config_zero
                 ≫= Mountpoint "/mnt/x")) = Some (Some target_error)
  /\ (validate <$> (Target url_Parse_sample_more "https://h/" Config_zero
                    ≫= Mountpoint "/mnt/x")) = Some (Some bucket_error)
  /\ (validate <$> (Target url_Parse_sample_more "https://h//p" Config_zero
                    ≫= Mountpoint "/mnt/x")) = Some (Some bucket_error)
  /\ (validate <$> (Target url_Parse_sample_more "https://h/b/p" Config_zero
                    ≫= Mountpoint "/mnt/x")) = Some None.
Proof.
  split; [| split; [| split]].
  - apply (validate_fresh_build url_Parse_sample_more "://h/b" "/mnt/x"
             Config_zero); [reflexivity | reflexivity | discriminate].
  - apply (validate_fresh_build url_Parse_sample_more "https://h/" "/mnt/x"
             Config_zero); [reflexivity | reflexivity | discriminate].
  - apply (validate_fresh_build url_Parse_sample_more "https://h//p" "/mnt/x"
             Config_zero); [reflexivity | reflexivity | discriminate].
  - apply (validate_fresh_build url_Parse_sample_more "https://h/b/p" "/mnt/x"
             Config_zero); [reflexivity | reflexivity | discriminate].
Defined.

(** X8: what [/b/x/../p] gives, written back as [/b/p], gives the same. *)
Lemma Target_reparse_example :
  exists cfg2,
    Target url_Parse_sample_more "https://h/b/p" Config_zero = Some cfg2
    /\ bucket cfg2 = "b" /\ basePath cfg2 = "p".
Proof.
  apply (Target_reparse url_Parse_sample_more
           "https://h/b/x/../p" "https://h/b/p"
           (http_URL "https" "h" "/b/x/../p") (http_URL "https" "h" "/b/p")
           Config_zero
           (set_basePath "p"
              (set_bucket "b"
                 (set_target (Some (http_URL "https" "h" "/b/x/../p"))
                    Config_zero)))
           Config_zero);
    solve [reflexivity | simpl; lia].
Defined.

(** X9 at the path [/b/x/../p]. *)
Lemma Target_basePath_clean_example :
  exists cfg',
    Target url_Parse_sample "https://h/b/x/../p" Config_zero = Some cfg'
    /\ (basePath cfg' = "" \/ basePath cfg' = "."
        \/ exists k reals,
             strings_Split (basePath cfg') "/" = repeat ".." k ++ reals
             /\ forallb plain reals = true).
Proof.
  apply (Target_basePath_clean url_Parse_sample "https://h/b/x/../p"
           (http_URL "https" "h" "/b/x/../p") Config_zero);
    [reflexivity | simpl; lia].
Defined.

(** X10 for two configurations with different mountpoints, caches and
    owners, both without target. *)
Lemma validate_reads_three_fields_example :
  validate (set_mountpoint "/mnt/x" Config_zero)
  = validate (set_uid 1000 (set_cache "/tmp/c"
                              (set_mountpoint "/mnt/y" Config_zero))).
Proof.
  apply (validate_reads_three_fields
           (set_mountpoint "/mnt/x" Config_zero)
           (set_uid 1000 (set_cache "/tmp/c"
                            (set_mountpoint "/mnt/y" Config_zero))));
    split; intros H; solve [discriminate H | reflexivity].
Defined.


(** X12 for a file that cannot be read. *)
Lemma InitMinFSConfig_read_error_example :
  exists w',
    InitMinFSConfig sample_dir sample_file json_Unmarshal_sample
      world_unreadable
    = (inl (ErrIO "input/output error"), w')
    /\ files w' = files world_unreadable
    /\ trace w'
       = [CallMkdirAll sample_dir perm_0777; CallNow;
          AssignMountTime 1700000000%Z; CallStat sample_file;
          CallReadFile sample_file].
Proof.
  apply (InitMinFSConfig_read_error sample_dir sample_file
           json_Unmarshal_sample world_unreadable sample_document
           (ErrIO "input/output error"));
    vm_compute; reflexivity.
Defined.

(** X13 for a file that holds a lone brace. *)
Lemma InitMinFSConfig_decode_error_example :
  exists w',
    InitMinFSConfig sample_dir sample_file json_Unmarshal_sample
      world_bad_document
    = (inl (ErrJSON "unexpected end of JSON input"), w')
    /\ files w' = files world_bad_document
    /\ trace w'
       = [CallMkdirAll sample_dir perm_0777; CallNow;
          AssignMountTime 1700000000%Z; CallStat sample_file;
          CallReadFile sample_file].
Proof.
  apply (InitMinFSConfig_decode_error sample_dir sample_file
           json_Unmarshal_sample world_bad_document "{"
           (ErrJSON "unexpected end of JSON input"));
    vm_compute; reflexivity.
Defined.

(** X14 for a file that cannot be opened and for a full disk. *)
Lemma InitMinFSConfig_write_error_example :
  (exists w',
     InitMinFSConfig sample_dir sample_file json_Unmarshal_sample
       world_read_only
     = (inl ErrPermission, w')
     /\ trace w'
        = trace (before_write sample_dir sample_file world_read_only)
          ++ [CallWriteFile sample_file
                (credential_document (first_run_record world_read_only))
                perm_0666])
  /\ (exists w',
        InitMinFSConfig sample_dir sample_file json_Unmarshal_sample
          world_disk_full
        = (inl (ErrIO "no space left on device"), w')
        /\ trace w'
           = trace (before_write sample_dir sample_file world_disk_full)
             ++ [CallWriteFile sample_file
                   (credential_document (first_run_record world_disk_full))
                   perm_0666]).
Proof.
  split.
  - apply (InitMinFSConfig_write_error sample_dir sample_file
             json_Unmarshal_sample world_read_only ErrPermission);
      try (vm_compute; reflexivity).
    + apply not_elem_of_empty.
    + discriminate.
    + left. reflexivity.
  - apply (InitMinFSConfig_write_error sample_dir sample_file
             json_Unmarshal_sample world_disk_full
             (ErrIO "no space left on device"));
      try (vm_compute; reflexivity).
    + apply not_elem_of_empty.
    + discriminate.
    + right. exists 0. reflexivity.
Defined.

(** X15 for a secret key that needs escapes and two unset variables. *)
Lemma InitMinFSConfig_first_run_any_example :
  exists w',
    InitMinFSConfig sample_dir sample_file json_Unmarshal_sample
      world_odd_key
    = (inr (mkAccessConfig "1" "" (String dquote (String "010" "<")) ""), w')
    /\ json_Marshal (first_run_record world_odd_key)
       = inr (credential_document (first_run_record world_odd_key))
    /\ files w'
       = <[sample_file := credential_document (first_run_record world_odd_key)]>
           (files world_odd_key).
Proof.
  apply (InitMinFSConfig_first_run_any sample_dir sample_file
           json_Unmarshal_sample world_odd_key);
    try (vm_compute; reflexivity).
  - apply not_elem_of_empty.
  - discriminate.
Defined.

(** X16 for a run that succeeds, one that cannot read and one that
    cannot decode. *)
Lemma InitMinFSConfig_keeps_existing_file_example :
  files (InitMinFSConfig sample_dir sample_file json_Unmarshal_sample
           world_later_run).2
  = files world_later_run
  /\ files (InitMinFSConfig sample_dir sample_file json_Unmarshal_sample
              world_unreadable).2
     = files world_unreadable
  /\ files (InitMinFSConfig sample_dir sample_file json_Unmarshal_sample
              world_bad_document).2
     = files world_bad_document.
Proof.
  split; [| split].
  - apply (InitMinFSConfig_keeps_existing_file sample_dir sample_file
             json_Unmarshal_sample world_later_run sample_document);
      vm_compute; reflexivity.
  - apply (InitMinFSConfig_keeps_existing_file sample_dir sample_file
             json_Unmarshal_sample world_unreadable sample_document);
      vm_compute; reflexivity.
  - apply (InitMinFSConfig_keeps_existing_file sample_dir sample_file
             json_Unmarshal_sample world_bad_document "{");
      vm_compute; reflexivity.
Defined.

(** X17 for the keys [A] and [B], and for the key that needs escapes. *)
Lemma InitMinFSConfig_twice_example :
  (exists w1 w2,
     InitMinFSConfig sample_dir sample_file json_Unmarshal_written
       world_first_run
     = (inr (mkAccessConfig "1" "A" "B" ""), w1)
     /\ InitMinFSConfig sample_dir sample_file json_Unmarshal_written w1
        = (inr (mkAccessConfig "1" "A" "B" ""), w2)
     /\ files w2 = files w1)
  /\ (exists w1 w2,
        InitMinFSConfig sample_dir sample_file json_Unmarshal_written
          world_odd_key
        = (inr (first_run_record world_odd_key), w1)
        /\ InitMinFSConfig sample_dir sample_file json_Unmarshal_written w1
           = (inr (first_run_record world_odd_key), w2)
        /\ files w2 = files w1).
Proof.
  split.
  - apply (InitMinFSConfig_twice sample_dir sample_file json_Unmarshal_written
             world_first_run);
      try (vm_compute; reflexivity).
    + apply not_elem_of_empty.
    + discriminate.
  - apply (InitMinFSConfig_twice sample_dir sample_file json_Unmarshal_written
             world_odd_key);
      try (vm_compute; reflexivity).
    + apply not_elem_of_empty.
    + discriminate.
Defined.
